(** * Riddler Lottery: a shallow embedding of the notebook's search pipeline

    The notebook [RiddlerLottery.ipynb] solves a finite puzzle with four
    pieces of code: [factors] (trial division), the two set comprehensions
    that narrow [numbers], [multimap]/[product]/[products] (grouping the
    5-combinations by product) and the generator [k_disjoint] (set packing).
    This file embeds each of them and proves the properties stated about them. *)

From Stdlib Require Import ZArith List Lia Znumtheory Zdivisibility Factorial.
From stdpp Require Import base decidable option list sets gmap sorting.
Import ListNotations.

Local Open Scope Z_scope.

(** ** Outcomes of a Python call *)

(** The exceptions the modelled code can raise. *)
Inductive exn : Type :=
  | StopIteration
  | RuntimeError
  | IndexError
  | TypeError.

(** A call returns a value, raises, or (in the fuelled models only) runs out
    of fuel before it has finished. *)
Inductive outcome (A : Type) : Type :=
  | Return (a : A)
  | Raise (e : exn)
  | OutOfFuel.

Arguments Return {A} a.
Arguments Raise {A} e.
Arguments OutOfFuel {A}.

Definition obind {A B : Type} (m : outcome A) (f : A -> outcome B) : outcome B :=
  match m with
  | Return a => f a
  | Raise e => Raise e
  | OutOfFuel => OutOfFuel
  end.

Notation "'let!' x ':=' m 'in' k" := (obind m (fun x => k))
  (at level 10, x name, m at level 100, k at level 200).

(** An expression evaluated in the body of a generator expression: a
    [StopIteration] raised there reaches the consumer of the generator as a
    [RuntimeError] (PEP 479, in force in the notebook's Python 3.7); any
    other outcome passes through. *)
Definition in_generator {A : Type} (m : outcome A) : outcome A :=
  match m with
  | Raise StopIteration => Raise RuntimeError
  | _ => m
  end.

(** ** FactorEngine: [factors] *)

(** Python's [range(lo, hi)], as the list of its values. *)
Definition range (lo hi : Z) : list Z := seqZ lo (hi - lo).

(** [next(p for p in range(2, n + 1) if n % p == 0)]: the first value of the
    range that divides [n], if there is one.  Python's [%] on a positive
    divisor is [Z.modulo]. *)
Definition first_divisor (n : Z) : option Z :=
  find (fun p => n mod p =? 0) (range 2 (n + 1)).

(** [factors(n)], with the recursion depth bounded by [fuel]:
<<
    return ([] if n == 1
            else next([p] + factors(n // p)
                      for p in range(2, n + 1) if n % p == 0))
>>
    An exhausted generator makes [next] raise [StopIteration]; the
    recursive call is evaluated in the body of the generator expression. *)
Fixpoint factors_fuel (fuel : nat) (n : Z) : outcome (list Z) :=
  match fuel with
  | O => OutOfFuel
  | S fuel' =>
      if n =? 1 then Return []
      else match first_divisor n with
           | Some p =>
               let! fs := in_generator (factors_fuel fuel' (n / p)) in
               Return (p :: fs)
           | None => Raise StopIteration
           end
  end.

(** [factors(n)]: the recursion is at most [n] calls deep (see
    [factors_fuel_enough]), so this fuel never runs out on [n >= 1]. *)
Definition factors (n : Z) : outcome (list Z) :=
  factors_fuel (S (Z.to_nat n)) n.

(** [product(nums)]: [result = 1; for num in nums: result *= num]. *)
Definition product (nums : list Z) : Z := fold_left Z.mul nums 1.

(** ** NumberFilter: the two comprehensions over [numbers] *)

(** [distinct = set]. *)
Definition distinct (l : list Z) : gset Z := list_to_set l.

(** Iteration over a set of numbers.  CPython keeps a small non-negative int
    in the slot given by its value modulo the table size; the sets [numbers]
    of the notebook hold values below 128 in a table of 128 slots, so they
    are iterated in ascending order, as the printed outputs show.  On other
    sets CPython's order can differ ([{6, 10, 15}] sits in a table of 8 slots
    and is iterated as 10, 6, 15), so what depends on the order of iteration
    is stated about the notebook's sets only. *)
Definition iter (s : gset Z) : list Z := merge_sort Z.le (elements s).

(** A comprehension's [if] clause that may raise: keep the items on which the
    test returns [True], stop at the first item on which it raises. *)
Fixpoint filter_raising {A : Type} (test : A -> outcome bool) (l : list A)
  : outcome (list A) :=
  match l with
  | [] => Return []
  | x :: l' =>
      let! b := test x in
      let! r := filter_raising test l' in
      Return (if b : bool then x :: r else r)
  end.

(** A nested [for] clause that may raise: the concatenation of the inner
    iterables, in order. *)
Fixpoint flat_map_raising {A B : Type} (f : A -> outcome (list B)) (l : list A)
  : outcome (list B) :=
  match l with
  | [] => Return []
  | x :: l' =>
      let! ys := f x in
      let! r := flat_map_raising f l' in
      Return (ys ++ r)
  end.

(** Pass 1 (cell 3):
    [numbers = {n for n in range(1, 71) if len(distinct(factors(n))) >= 2}]. *)
Definition numbers_pass1 : outcome (gset Z) :=
  let! kept := filter_raising
      (fun n => let! fs := factors n in
                Return (bool_decide (2 <= size (distinct fs))%nat))
      (range 1 71) in
  Return (list_to_set kept).

(** [Counter(iterable)]: how often each element occurs. *)
Definition Counter (l : list Z) : gmap Z nat :=
  fold_left (fun c p => <[p := S (c !!! p)]> c) l ∅.

(** Cell 5:
    [prime_counts = Counter(p for n in numbers for p in distinct(factors(n)))].
    Here [factors(n)] is called in the body of the generator expression that
    [Counter] consumes. *)
Definition prime_counts_of (numbers : gset Z) : outcome (gmap Z nat) :=
  let! ps := in_generator (flat_map_raising
      (fun n => let! fs := factors n in Return (elements (distinct fs)))
      (iter numbers)) in
  Return (Counter ps).

(** Pass 2 (cell 7):
    [numbers = {n for n in numbers
                if all(prime_counts[p] >= 5 for p in distinct(factors(n)))}].
    A [Counter] answers 0 for a missing key.  The iterable
    [distinct(factors(n))] of the inner generator expression is evaluated in
    the set comprehension, not in a generator body. *)
Definition numbers_pass2 (numbers : gset Z) (prime_counts : gmap Z nat)
  : outcome (gset Z) :=
  let! kept := filter_raising
      (fun n => let! fs := factors n in
                Return (forallb (fun p => bool_decide (5 <= prime_counts !!! p)%nat)
                                (elements (distinct fs))))
      (iter numbers) in
  Return (list_to_set kept).

(** ** SelectionIndexer: [multimap], [products] *)

(** A selection is a tuple of numbers. *)
Abbreviation selection := (list Z) (only parsing).

(** [itertools.combinations(iterable, r)]: the [r]-element subsequences of the
    iterable, in lexicographic order of positions. *)
Fixpoint combinations {A : Type} (l : list A) (r : nat) {struct l} : list (list A) :=
  match r, l with
  | O, _ => [[]]
  | S r', [] => []
  | S r', x :: l' => map (cons x) (combinations l' r') ++ combinations l' r
  end.

(** A Python [dict] with integer keys: the entries in insertion order. *)
Abbreviation dict V := (list (Z * V)) (only parsing).

Definition keys {V : Type} (d : dict V) : list Z := map fst d.

(** [d[k]] on a [defaultdict(list)], read only: the stored list, or the empty
    default. *)
Fixpoint getitem {A : Type} (d : dict (list A)) (k : Z) : list A :=
  match d with
  | [] => []
  | (k', v) :: d' => if k' =? k then v else getitem d' k
  end.

(** [result[k].append(x)] on a [defaultdict(list)]: append to the list stored
    under [k]; a missing key is first inserted, at the end, with an empty list. *)
Fixpoint append_at {A : Type} (result : dict (list A)) (k : Z) (x : A)
  : dict (list A) :=
  match result with
  | [] => [(k, [x])]
  | (k', v) :: d' =>
      if k' =? k then (k', v ++ [x]) :: d' else (k', v) :: append_at d' k x
  end.

(** [multimap(items, key)]:
<<
    result = defaultdict(list)
    for x in items:
        result[key(x)].append(x)
    return result
>> *)
Definition multimap {A : Type} (items : list A) (key : A -> Z) : dict (list A) :=
  fold_left (fun result x => append_at result (key x) x) items [].

(** Cell 9: [products = multimap(combinations(numbers, 5), key=product)]. *)
Definition products_of (numbers : gset Z) : dict (list selection) :=
  multimap (combinations (iter numbers) 5) product.

(** ** DisjointSetSearch: [k_disjoint] *)

(** [is_disjoint(A, B)]: [not any(a in B for a in A)]. *)
Definition is_disjoint (A B : selection) : bool :=
  negb (existsb (fun a => existsb (Z.eqb a) B) A).

(** [all(is_disjoint(selection, s) for s in partial_solution)]. *)
Definition all_disjoint (sel : selection) (partial_solution : gset selection) : bool :=
  forallb (is_disjoint sel) (elements partial_solution).

(** [k_disjoint(k, selections, start, partial_solution)], as the list of the
    sets the generator yields, with the recursion depth bounded by [fuel]:
<<
    if len(partial_solution) == k:
        yield partial_solution
    elif len(partial_solution) + (len(selections) - start) >= k:
        for i in range(start, len(selections)):
            selection = selections[i]
            if all(is_disjoint(selection, s) for s in partial_solution):
                yield from k_disjoint(k, selections, i + 1,
                                      partial_solution | {selection})
>>
    [k] and [start] are natural numbers: negative arguments are outside the
    model.  When [start] exceeds the length, the truncated subtraction and the
    empty range both leave nothing to yield, as in Python. *)
Fixpoint k_disjoint_fuel (fuel : nat) (k : nat) (selections : list selection)
    (start : nat) (partial_solution : gset selection)
  : outcome (list (gset selection)) :=
  match fuel with
  | O => OutOfFuel
  | S fuel' =>
      if (size partial_solution =? k)%nat then Return [partial_solution]
      else if (k <=? size partial_solution + (length selections - start))%nat then
        flat_map_raising (fun i =>
            match selections !! i with
            | Some sel =>
                if all_disjoint sel partial_solution
                then k_disjoint_fuel fuel' k selections (i + 1)%nat
                                     (partial_solution ∪ {[sel]})
                else Return []
            | None => Raise IndexError
            end)
          (seq start (length selections - start))
      else Return []
  end.

(** A top-level call [k_disjoint(k, selections)]: [start=0] and the empty
    default [partial_solution].  Each nested call advances [start], so the
    recursion is at most [len(selections) + 1] calls deep. *)
Definition k_disjoint (k : nat) (selections : list selection)
  : outcome (list (gset selection)) :=
  k_disjoint_fuel (S (length selections)) k selections 0 ∅.

(** [any(iterable)] over yielded sets: a set is true when it is not empty. *)
Definition any (results : list (gset selection)) : bool :=
  existsb (fun s => negb (bool_decide (size s = 0%nat))) results.

(** ** Usage: product discovery and enumeration *)

(** Cell 21: [N = next(n for n in products if any(k_disjoint(5, products[n])))].
    The generator expression tests the keys in the mapping's iteration
    (insertion) order; [scan] returns the keys it has tested, in order,
    together with the outcome of [next]. *)
Fixpoint scan (products : dict (list selection)) (ks : list Z)
  : list Z * outcome Z :=
  match ks with
  | [] => ([], Raise StopIteration)
  | n :: ks' =>
      match k_disjoint 5 (getitem products n) with
      | Return results =>
          if any results then ([n], Return n)
          else let r := scan products ks' in (n :: r.1, r.2)
      | Raise e => ([n], Raise e)
      | OutOfFuel => ([n], OutOfFuel)
      end
  end.

Definition tested (products : dict (list selection)) : list Z :=
  (scan products (keys products)).1.

Definition discover (products : dict (list selection)) : outcome Z :=
  (scan products (keys products)).2.

(** Cell 23: [different_ways = list(k_disjoint(5, products[N]))]. *)
Definition different_ways_of (products : dict (list selection)) (N : Z)
  : outcome (list (gset selection)) :=
  k_disjoint 5 (getitem products N).

(** The notebook's global variables after its last cell. *)
Record globals : Type := Globals {
  g_numbers : gset Z;
  g_prime_counts : gmap Z nat;
  g_products : dict (list selection);
  g_N : Z;
  g_factors_N : list Z;
  g_different_ways : list (gset selection)
}.

(** The cells in order; [numbers] is rebound by cell 7. *)
Definition notebook : outcome globals :=
  let! numbers := numbers_pass1 in
  let! prime_counts := prime_counts_of numbers in
  let! numbers := numbers_pass2 numbers prime_counts in
  let products := products_of numbers in
  let! N := discover products in
  let! fs := factors N in
  let! different_ways := different_ways_of products N in
  Return (Globals numbers prime_counts products N fs different_ways).

(** ** [k_disjoint] on the object store

    Python passes sets and lists by reference.  To speak about mutation and
    about the default [partial_solution=set()], which is one object created
    when the [def] is executed, the generator is modelled a second time over
    a store of objects; tuples and ints are immutable and stay values. *)

Inductive object : Type :=
  | SetObj (s : gset selection)
  | ListObj (l : list selection).

(** A reference is a position in the store; allocation appends. *)
Abbreviation ref := nat (only parsing).
Abbreviation store := (list object) (only parsing).

(** A computation on the store ends in an outcome and leaves a store. *)
Definition py (A : Type) : Type := store -> outcome A * store.

Definition py_ret {A : Type} (a : A) : py A := fun st => (Return a, st).

Definition py_raise {A : Type} (e : exn) : py A := fun st => (Raise e, st).

Definition py_bind {A B : Type} (m : py A) (f : A -> py B) : py B :=
  fun st =>
    match m st with
    | (Return a, st') => f a st'
    | (Raise e, st') => (Raise e, st')
    | (OutOfFuel, st') => (OutOfFuel, st')
    end.

Notation "'let*' x ':=' m 'in' k" := (py_bind m (fun x => k))
  (at level 10, x name, m at level 100, k at level 200).

(** Reading a set object: [len(s)] and iteration both go through its value. *)
Definition read_set (r : ref) : py (gset selection) :=
  fun st =>
    match st !! r with
    | Some (SetObj s) => (Return s, st)
    | _ => (Raise TypeError, st)
    end.

Definition read_list (r : ref) : py (list selection) :=
  fun st =>
    match st !! r with
    | Some (ListObj l) => (Return l, st)
    | _ => (Raise TypeError, st)
    end.

(** [selections[i]]. *)
Definition list_getitem (r : ref) (i : nat) : py selection :=
  let* l := read_list r in
  match l !! i with
  | Some x => py_ret x
  | None => py_raise IndexError
  end.

(** Creating an object. *)
Definition alloc (o : object) : py ref :=
  fun st => (Return (length st), st ++ [o]).

(** In-place update of an object; [k_disjoint] has no statement that does
    this, but its callers could. *)
Definition assign (r : ref) (o : object) : py unit :=
  fun st => (Return tt, <[r := o]> st).

(** [a | {x}]: a new set object; the operand is only read. *)
Definition set_or_singleton (a : ref) (x : selection) : py ref :=
  let* s := read_set a in
  alloc (SetObj (s ∪ {[x]})).

(** A [for] loop whose body yields: the yields of the iterations, in order. *)
Fixpoint for_yield {A : Type} (body : A -> py (list ref)) (l : list A)
  : py (list ref) :=
  match l with
  | [] => py_ret []
  | x :: l' =>
      let* ys := body x in
      let* r := for_yield body l' in
      py_ret (ys ++ r)
  end.

(** The generator, yielding references to set objects. *)
Fixpoint k_disjoint_store (fuel : nat) (k : nat) (selections : ref)
    (start : nat) (partial_solution : ref) : py (list ref) :=
  match fuel with
  | O => fun st => (OutOfFuel, st)
  | S fuel' =>
      let* p := read_set partial_solution in
      if (size p =? k)%nat then py_ret [partial_solution]
      else
        let* sels := read_list selections in
        if (k <=? size p + (length sels - start))%nat then
          for_yield (fun i =>
              let* sel := list_getitem selections i in
              let* p := read_set partial_solution in
              if all_disjoint sel p
              then let* p' := set_or_singleton partial_solution sel in
                   k_disjoint_store fuel' k selections (i + 1)%nat p'
              else py_ret [])
            (seq start (length sels - start))
        else py_ret []
  end.

(** Executing the [def]: the default value [set()] is evaluated once and the
    function keeps the reference. *)
Definition def_k_disjoint : py ref := alloc (SetObj ∅).

(** [list(k_disjoint(k, selections))] for a function whose default
    [partial_solution] is the object at [default]. *)
Definition call_k_disjoint (default : ref) (k : nat) (selections : ref)
  : py (list ref) :=
  let* sels := read_list selections in
  k_disjoint_store (S (length sels)) k selections 0 default.

(** The values of yielded references in a store. *)
Definition values (st : store) (rs : list ref) : list (option object) :=
  map (fun r => st !! r) rs.

(** ** Closed forms of the search, used in the proofs *)

(** The [for] loop of [k_disjoint] over the selections not yet considered,
    [rest = selections[start:]], with the test at the head of each nested
    call inlined.  [k_disjoint_fuel_search] shows that the generator yields
    exactly this list. *)
Fixpoint search_loop (k : nat) (rest : list selection) (partial : gset selection)
  : list (gset selection) :=
  match rest with
  | [] => []
  | sel :: rest' =>
      (if all_disjoint sel partial then
         let partial' := partial ∪ {[sel]} in
         if (size partial' =? k)%nat then [partial']
         else if (k <=? size partial' + length rest')%nat
              then search_loop k rest' partial'
              else []
       else [])
      ++ search_loop k rest' partial
  end.

(** One call of [k_disjoint] on [rest = selections[start:]]. *)
Definition search (k : nat) (rest : list selection) (partial : gset selection)
  : list (gset selection) :=
  if (size partial =? k)%nat then [partial]
  else if (k <=? size partial + length rest)%nat then search_loop k rest partial
  else [].

(** Counting the packings of [d] pairwise disjoint selections among
    candidates, keeping at each step only the candidates that are still
    disjoint from the selection just chosen (the last choice needs no
    further candidates).  [search_length] relates it to the length of
    [search]. *)
Fixpoint count_packings (d : nat) (cands : list selection) : nat :=
  match d with
  | O => 1%nat
  | S d' =>
      (fix over (l : list selection) : nat :=
         match l with
         | [] => 0%nat
         | sel :: l' =>
             (match d' with
              | O => 1
              | S _ => count_packings d' (List.filter (fun t => is_disjoint t sel) l')
              end + over l')%nat
         end) cands
  end.

(** Pairwise disjointness of the members of a set of selections, stated on
    the numbers themselves and not through the code's test [is_disjoint]: no
    number occurs in two different members. *)
Definition pairwise_disjoint (S : gset selection) : Prop :=
  forall A B, A ∈ S -> B ∈ S -> A ≠ B -> forall x, x ∈ A -> x ∉ B.

(** ** The order of discovery in the words of the specification *)

(** Modelled from the spec: the discovery step iterates first over the
    products whose group has at least [F = 5] selections, then over the rest. *)
Definition spec_scan_order (products : dict (list selection)) : list Z :=
  List.filter (fun n => (5 <=? length (getitem products n))%nat) (keys products)
  ++ List.filter (fun n => negb (5 <=? length (getitem products n))%nat) (keys products).

(** ** Notions used in the statements *)

(** A computation that only allocates: the store it leaves extends the one it
    was given, so every object that existed before is unchanged. *)
Definition allocates_only {A : Type} (m : py A) : Prop :=
  forall st, st `prefix_of` (m st).2.

(** The values of set objects, as [values] reads them from a store. *)
Definition set_values (results : list (gset selection)) : list (option object) :=
  map (fun s => Some (SetObj s)) results.

(** ** The canonical values *)

(** The 41 numbers printed by cell 3. *)
Definition numbers41 : list Z :=
  [6; 10; 12; 14; 15; 18; 20; 21; 22; 24; 26; 28; 30; 33; 34; 35; 36; 38; 39;
   40; 42; 44; 45; 46; 48; 50; 51; 52; 54; 55; 56; 57; 58; 60; 62; 63; 65; 66;
   68; 69; 70].

(** The counts printed by cell 5. *)
Definition prime_counts41 : list (Z * nat) :=
  [(2, 29%nat); (3, 20%nat); (5, 12%nat); (7, 8%nat); (11, 5%nat); (13, 4%nat);
   (17, 3%nat); (19, 2%nat); (23, 2%nat); (29, 1%nat); (31, 1%nat)].

(** The counts that cell 5 would print over the 28 numbers of cell 7. *)
Definition prime_counts28 : list (Z * nat) :=
  [(2, 21%nat); (3, 16%nat); (5, 11%nat); (7, 8%nat); (11, 5%nat)].

(** The 28 numbers printed by cell 7. *)
Definition universe28 : list Z :=
  [6; 10; 12; 14; 15; 18; 20; 21; 22; 24; 28; 30; 33; 35; 36; 40; 42; 44; 45;
   48; 50; 54; 55; 56; 60; 63; 66; 70].

(** The product printed by cell 21. *)
Definition N21 : Z := 19958400.

(** The selections of the canonical run stored under the product [n]. *)
Definition group (n : Z) : list selection :=
  List.filter (fun c => product c =? n) (combinations universe28 5).

(** The example of cell 17. *)
Definition cell17 : list selection :=
  [[6; 60]; [10; 36]; [12; 30]; [15; 24]; [18; 20]; [10; 35]].

(** The six selections of cell 19, whose product is 302,400. *)
Definition cell19 : list selection :=
  [[6; 10; 12; 14; 30]; [6; 10; 12; 15; 28]; [6; 10; 12; 20; 21];
   [6; 10; 14; 15; 24]; [6; 10; 14; 18; 20]; [6; 12; 14; 15; 20]].

(** The products of [(1, 2)] and of the six selections of cell 19, grouped as
    [multimap] groups them. *)
Definition small_products : dict (list selection) :=
  multimap ([1; 2] :: cell19) product.

(** ** Notions used in further statements *)

(** The number of ways to choose [k] of [n] positions, by Pascal's rule. *)
Fixpoint binomial (n k : nat) : nat :=
  match k, n with
  | O, _ => 1
  | S _, O => 0
  | S k', S n' => binomial n' k' + binomial n' k
  end.

(** The prime factors of [n], as the set [distinct(factors(n))]. *)
Definition prime_factors (n : Z) : gset Z :=
  match factors n with
  | Return fs => distinct fs
  | _ => ∅
  end.

(* ================================================================= *)
(** * Proofs *)

(** ** Products of lists *)

Lemma product_nil : product [] = 1.
Proof. reflexivity. Qed.

Lemma product_cons x l : product (x :: l) = x * product l.
Proof.
  unfold product. simpl.
  assert (H : forall l a, fold_left Z.mul l a = a * fold_left Z.mul l 1).
  { clear. induction l as [|y l IH]; intros a; simpl; [lia|].
    rewrite IH, (IH (1 * y)). lia. }
  rewrite H. lia.
Qed.

Lemma product_app l1 l2 : product (l1 ++ l2) = product l1 * product l2.
Proof.
  induction l1 as [|x l1 IH]; simpl.
  - rewrite product_nil. lia.
  - rewrite !product_cons, IH. lia.
Qed.

Lemma product_Permutation l1 l2 : l1 ≡ₚ l2 -> product l1 = product l2.
Proof.
  induction 1 as [|x l1 l2 _ IH|x y l|l1 l2 l3 _ IH1 _ IH2];
    rewrite ?product_cons; lia.
Qed.

Lemma product_concat (ls : list (list Z)) (n : Z) :
  Forall (fun l => product l = n) ls -> product (concat ls) = n ^ Z.of_nat (length ls).
Proof.
  induction 1 as [|l ls Hl _ IH]; [done|].
  simpl concat. rewrite product_app, Hl, IH. simpl length.
  rewrite Nat2Z.inj_succ, Z.pow_succ_r by lia. done.
Qed.

Lemma product_bounds (l : list Z) (b : Z) :
  Forall (fun x => 1 <= x <= b) l -> 1 <= product l <= b ^ Z.of_nat (length l).
Proof.
  induction 1 as [|x l Hx _ IH]; [simpl; rewrite product_nil; lia|].
  rewrite product_cons. simpl length. rewrite Nat2Z.inj_succ, Z.pow_succ_r by lia.
  nia.
Qed.

(** ** Ranges and the first divisor *)

Lemma range_nil lo hi : hi <= lo -> range lo hi = [].
Proof.
  intros H. unfold range, seqZ.
  replace (Z.to_nat (hi - lo)) with 0%nat by lia. reflexivity.
Qed.

Lemma range_cons lo hi : lo < hi -> range lo hi = lo :: range (lo + 1) hi.
Proof.
  intros H. unfold range. rewrite seqZ_cons by lia.
  f_equal. f_equal; lia.
Qed.

Lemma find_range (f : Z -> bool) (lo hi : Z) :
  match find f (range lo hi) with
  | Some p => lo <= p < hi /\ f p = true /\ forall q, lo <= q < p -> f q = false
  | None => forall q, lo <= q < hi -> f q = false
  end.
Proof.
  remember (Z.to_nat (hi - lo)) as len eqn:Hlen.
  revert lo Hlen. induction len as [|len IH]; intros lo Hlen.
  - rewrite range_nil by lia. simpl. intros q Hq. lia.
  - rewrite range_cons by lia. simpl.
    destruct (f lo) eqn:Hf.
    + split; [lia|]. split; [auto|]. intros q Hq. lia.
    + specialize (IH (lo + 1) ltac:(lia)).
      destruct (find f (range (lo + 1) hi)) as [p|].
      * destruct IH as (Hp & Hfp & Hmin). split; [lia|]. split; [auto|].
        intros q Hq. destruct (decide (q = lo)) as [->|Hne]; auto.
        apply Hmin. lia.
      * intros q Hq. destruct (decide (q = lo)) as [->|Hne]; auto.
        apply IH. lia.
Qed.

Lemma first_divisor_Some n p :
  first_divisor n = Some p <->
  2 <= p <= n /\ n mod p = 0 /\ forall q, 2 <= q < p -> n mod q <> 0.
Proof.
  unfold first_divisor.
  pose proof (find_range (fun p => n mod p =? 0) 2 (n + 1)) as H.
  destruct (find _ _) as [p'|].
  - destruct H as (Hp & Hd & Hmin). apply Z.eqb_eq in Hd. split.
    + intros [= <-]. split; [lia|]. split; [auto|].
      intros q Hq. specialize (Hmin q Hq). apply Z.eqb_neq in Hmin. exact Hmin.
    + intros (Hp2 & Hd2 & Hmin2). f_equal.
      destruct (Z.lt_trichotomy p p') as [Hlt | [Heq | Hgt]]; auto.
      * specialize (Hmin p ltac:(lia)). apply Z.eqb_neq in Hmin. contradiction.
      * exfalso. apply (Hmin2 p'); auto. lia.
  - split; [discriminate|]. intros (Hp & Hd & _).
    specialize (H p ltac:(lia)). apply Z.eqb_neq in H. contradiction.
Qed.

Lemma first_divisor_exists n : 2 <= n -> exists p, first_divisor n = Some p.
Proof.
  intros Hn. unfold first_divisor.
  pose proof (find_range (fun p => n mod p =? 0) 2 (n + 1)) as H.
  destruct (find _ _) as [p|]; eauto.
  specialize (H n ltac:(lia)). rewrite Z.mod_same in H by lia. discriminate.
Qed.

Lemma first_divisor_quotient n p :
  2 <= n -> first_divisor n = Some p -> 1 <= n / p < n /\ n = p * (n / p).
Proof.
  intros Hn Hp. apply first_divisor_Some in Hp as (Hp & Hd & _).
  assert (Heq : n = p * (n / p)).
  { rewrite (Z.div_mod n p) at 1 by lia. lia. }
  split; auto. split.
  - apply Z.div_le_lower_bound; lia.
  - apply Z.div_lt; lia.
Qed.

Lemma first_divisor_prime n p : first_divisor n = Some p -> prime p.
Proof.
  intros Hp. apply first_divisor_Some in Hp as (Hp & Hd & Hmin).
  apply prime_alt. split; [lia|].
  intros d Hd1 Hdiv.
  apply (Hmin d); [lia|].
  apply Z.mod_divide; [lia|].
  apply Z.divide_trans with p; auto.
  apply Z.mod_divide; [lia | exact Hd].
Qed.

(** ** [factors] *)

Lemma factors_fuel_enough fuel n :
  1 <= n -> (Z.to_nat n <= fuel)%nat ->
  exists fs, factors_fuel fuel n = Return fs /\ product fs = n /\ Forall prime fs.
Proof.
  revert n. induction fuel as [|fuel IH]; intros n Hn Hfuel; [lia|].
  simpl. destruct (n =? 1) eqn:H1.
  - apply Z.eqb_eq in H1. subst. exists []. auto.
  - apply Z.eqb_neq in H1.
    destruct (first_divisor_exists n ltac:(lia)) as [p Hp]. rewrite Hp.
    destruct (first_divisor_quotient n p ltac:(lia) Hp) as (Hq & Heq).
    destruct (IH (n / p) ltac:(lia) ltac:(lia)) as (fs & Hfs & Hprod & Hprime).
    rewrite Hfs. simpl. exists (p :: fs). repeat split.
    + rewrite product_cons, Hprod. lia.
    + constructor; auto. eapply first_divisor_prime; eauto.
Qed.

Lemma factors_fuel_mono fuel fuel' n fs :
  factors_fuel fuel n = Return fs -> (fuel <= fuel')%nat ->
  factors_fuel fuel' n = Return fs.
Proof.
  revert fuel' n fs. induction fuel as [|fuel IH]; intros fuel' n fs H Hle;
    [discriminate|].
  destruct fuel' as [|fuel']; [lia|]. simpl in *.
  destruct (n =? 1); auto.
  destruct (first_divisor n) as [p|]; [|discriminate].
  destruct (factors_fuel fuel (n / p)) as [gs|[]|] eqn:Hg; try discriminate.
  rewrite (IH fuel' _ gs Hg) by lia. exact H.
Qed.

Lemma factors_positive n :
  1 <= n -> exists fs, factors n = Return fs /\ product fs = n /\ Forall prime fs.
Proof. intros Hn. apply factors_fuel_enough; [auto | lia]. Qed.

Lemma factors_unfold n p fs :
  first_divisor n = Some p -> 2 <= n -> factors (n / p) = Return fs ->
  factors n = Return (p :: fs).
Proof.
  intros Hp Hn Hfs. unfold factors. simpl.
  destruct (n =? 1) eqn:H1; [apply Z.eqb_eq in H1; lia|].
  rewrite Hp.
  destruct (first_divisor_quotient n p Hn Hp) as (Hq & _).
  rewrite (factors_fuel_mono _ (Z.to_nat n) _ fs Hfs) by lia. reflexivity.
Qed.

(** ** Disjointness of selections *)

Lemma is_disjoint_true (A B : selection) :
  is_disjoint A B = true <-> forall x, x ∈ A -> x ∉ B.
Proof.
  unfold is_disjoint. rewrite negb_true_iff, <- not_true_iff_false, existsb_exists.
  split.
  - intros H x HA HB. apply H. exists x. split; [by apply list_elem_of_In|].
    apply existsb_exists. exists x. split; [by apply list_elem_of_In|].
    apply Z.eqb_refl.
  - intros H (x & HA & HB). apply existsb_exists in HB as (y & HB & Heq).
    apply Z.eqb_eq in Heq. subst y.
    apply (H x); by apply list_elem_of_In.
Qed.

Lemma is_disjoint_sym (A B : selection) : is_disjoint A B = is_disjoint B A.
Proof.
  apply eq_true_iff_eq. rewrite !is_disjoint_true. split; intros H x H1 H2; eapply H; eauto.
Qed.

Lemma is_disjoint_self (A : selection) : is_disjoint A A = true -> A = [].
Proof.
  rewrite is_disjoint_true. destruct A as [|a A]; [done|].
  intros H. exfalso. apply (H a); left.
Qed.

Lemma all_disjoint_true (sel : selection) (P : gset selection) :
  all_disjoint sel P = true <-> forall s, s ∈ P -> is_disjoint sel s = true.
Proof.
  unfold all_disjoint. rewrite forallb_forall. split.
  - intros H s Hs. apply H, list_elem_of_In, elem_of_elements, Hs.
  - intros H s Hs. apply H, elem_of_elements, list_elem_of_In, Hs.
Qed.

Lemma all_disjoint_empty (sel : selection) : all_disjoint sel ∅ = true.
Proof. apply all_disjoint_true. set_solver. Qed.

Lemma all_disjoint_union (sel s : selection) (P : gset selection) :
  all_disjoint sel (P ∪ {[s]}) = all_disjoint sel P && is_disjoint sel s.
Proof.
  apply eq_true_iff_eq. rewrite andb_true_iff, !all_disjoint_true. split.
  - intros H. split; [intros t Ht|]; apply H; set_solver.
  - intros [H1 H2] t Ht. apply elem_of_union in Ht as [Ht|Ht]; [by apply H1|].
    apply elem_of_singleton in Ht. by subst.
Qed.

(** The code's test decides the same relation. *)
Lemma pairwise_disjoint_is_disjoint (S : gset selection) :
  pairwise_disjoint S <->
  forall A B, A ∈ S -> B ∈ S -> A ≠ B -> is_disjoint A B = true.
Proof.
  unfold pairwise_disjoint.
  split; intros H A B HA HB Hne; apply is_disjoint_true; by apply H.
Qed.

Lemma pairwise_disjoint_empty : pairwise_disjoint ∅.
Proof. intros A B HA. set_solver. Qed.

Lemma pairwise_disjoint_add (sel : selection) (P : gset selection) :
  pairwise_disjoint P -> all_disjoint sel P = true ->
  pairwise_disjoint (P ∪ {[sel]}).
Proof.
  rewrite !pairwise_disjoint_is_disjoint.
  intros HP Hsel A B HA HB Hne.
  rewrite all_disjoint_true in Hsel.
  apply elem_of_union in HA as [HA|HA]; apply elem_of_union in HB as [HB|HB];
    rewrite ?elem_of_singleton in *; subst.
  - by apply HP.
  - rewrite is_disjoint_sym. by apply Hsel.
  - by apply Hsel.
  - done.
Qed.

Lemma pairwise_disjoint_subseteq (P Q : gset selection) :
  P ⊆ Q -> pairwise_disjoint Q -> pairwise_disjoint P.
Proof. intros Hsub HQ A B HA HB. apply HQ; set_solver. Qed.

(** ** The generator yields the closed form *)

Lemma search_unfold (k : nat) (sel : selection) (rest : list selection) (P : gset selection) :
  search_loop k (sel :: rest) P =
  (if all_disjoint sel P then search k rest (P ∪ {[sel]}) else [])
  ++ search_loop k rest P.
Proof. reflexivity. Qed.

Lemma flat_map_raising_cons {A B} (f : A -> outcome (list B)) x l ys r :
  f x = Return ys -> flat_map_raising f l = Return r ->
  flat_map_raising f (x :: l) = Return (ys ++ r).
Proof. intros Hx Hl. simpl. rewrite Hx. simpl. rewrite Hl. reflexivity. Qed.

Lemma k_disjoint_fuel_search (fuel k : nat) (sels : list selection) (start : nat) (P : gset selection) :
  (length sels - start < fuel)%nat ->
  k_disjoint_fuel fuel k sels start P = Return (search k (drop start sels) P).
Proof.
  revert start P. induction fuel as [|fuel IH]; intros start P Hfuel; [lia|].
  simpl. unfold search. rewrite length_drop.
  destruct (size P =? k)%nat; [done|].
  destruct (k <=? size P + (length sels - start))%nat; [|done].
  assert (Hloop : forall m j, (start <= j)%nat -> m = (length sels - j)%nat ->
    flat_map_raising (fun i =>
        match sels !! i with
        | Some sel =>
            if all_disjoint sel P
            then k_disjoint_fuel fuel k sels (i + 1)%nat (P ∪ {[sel]})
            else Return []
        | None => Raise IndexError
        end) (seq j m) = Return (search_loop k (drop j sels) P)).
  { induction m as [|m IHm]; intros j Hj Hm.
    - simpl. rewrite drop_ge by lia. done.
    - destruct (lookup_lt_is_Some_2 sels j ltac:(lia)) as [sel Hsel].
      rewrite (drop_S _ _ _ Hsel), search_unfold. simpl seq.
      apply flat_map_raising_cons; [|apply IHm; lia].
      rewrite Hsel. destruct (all_disjoint sel P); [|done].
      rewrite IH by lia. by rewrite Nat.add_1_r. }
  by apply Hloop.
Qed.

Lemma k_disjoint_search (k : nat) (sels : list selection) :
  k_disjoint k sels = Return (search k sels ∅).
Proof. unfold k_disjoint. rewrite k_disjoint_fuel_search by lia. done. Qed.

(** ** Soundness *)

Lemma search_loop_sound (k : nat) (rest : list selection) (P S : gset selection) :
  S ∈ search_loop k rest P ->
  size S = k /\ P ⊆ S /\ S ⊆ P ∪ list_to_set rest /\
  (pairwise_disjoint P -> pairwise_disjoint S).
Proof.
  revert P. induction rest as [|sel rest IH]; intros P; simpl; [by intros ?%elem_of_nil|].
  intros [H|H]%elem_of_app.
  - destruct (all_disjoint sel P) eqn:Hd; [|by apply elem_of_nil in H].
    destruct (size (P ∪ {[sel]}) =? k)%nat eqn:Hk.
    + apply list_elem_of_singleton in H as ->. apply Nat.eqb_eq in Hk.
      split; [done|]. split; [set_solver|]. split; [set_solver|].
      intros HP. by apply pairwise_disjoint_add.
    + destruct (k <=? _)%nat; [|by apply elem_of_nil in H].
      apply IH in H as (H1 & H2 & H3 & H4).
      split; [done|]. split; [set_solver|]. split; [set_solver|].
      intros HP. by apply H4, pairwise_disjoint_add.
  - apply IH in H as (H1 & H2 & H3 & H4). repeat split; auto. set_solver.
Qed.

Lemma search_sound (k : nat) (rest : list selection) (P S : gset selection) :
  S ∈ search k rest P ->
  size S = k /\ P ⊆ S /\ S ⊆ P ∪ list_to_set rest /\
  (pairwise_disjoint P -> pairwise_disjoint S).
Proof.
  unfold search. destruct (size P =? k)%nat eqn:Hk.
  - intros ->%list_elem_of_singleton. apply Nat.eqb_eq in Hk.
    repeat split; auto. set_solver.
  - destruct (k <=? _)%nat; [apply search_loop_sound|by intros ?%elem_of_nil].
Qed.

(** ** Completeness *)

Lemma size_union_list_le (P : gset selection) (rest : list selection) :
  (size (P ∪ list_to_set rest) <= size P + length rest)%nat.
Proof.
  induction rest as [|s rest IH]; simpl.
  - rewrite union_empty_r_L. lia.
  - transitivity (size ({[s]} ∪ (P ∪ list_to_set rest))).
    + apply subseteq_size. set_solver.
    + rewrite size_union_alt, size_singleton.
      pose proof (subseteq_size ((P ∪ list_to_set rest) ∖ {[s]}) (P ∪ list_to_set rest)
                    ltac:(set_solver)). lia.
Qed.

Lemma search_loop_complete (k : nat) (rest : list selection) (P S : gset selection) :
  size S = k -> pairwise_disjoint S ->
  P ⊆ S -> S ⊆ P ∪ list_to_set rest -> size P ≠ k ->
  S ∈ search_loop k rest P.
Proof.
  intros HS Hpw. rewrite pairwise_disjoint_is_disjoint in Hpw.
  revert P. induction rest as [|sel rest IH]; intros P HP Hcov Hne.
  - exfalso. apply Hne. rewrite <- HS. f_equal. apply set_eq. set_solver.
  - simpl. apply elem_of_app.
    destruct (decide (sel ∈ S ∧ sel ∉ P)) as [[Hin Hnin]|Hno].
    + left.
      assert (Hd : all_disjoint sel P = true).
      { apply all_disjoint_true. intros s Hs. apply Hpw; [done|set_solver|].
        intros ->. done. }
      rewrite Hd.
      assert (HP' : P ∪ {[sel]} ⊆ S) by set_solver.
      assert (Hcov' : S ⊆ (P ∪ {[sel]}) ∪ list_to_set rest) by set_solver.
      destruct (size (P ∪ {[sel]}) =? k)%nat eqn:Hk.
      * apply Nat.eqb_eq in Hk. apply list_elem_of_singleton.
        symmetry. apply set_subseteq_size_eq; [done|lia].
      * apply Nat.eqb_neq in Hk.
        assert (Hle : (k <=? size (P ∪ {[sel]}) + length rest)%nat = true).
        { apply Nat.leb_le. rewrite <- HS.
          etransitivity; [apply subseteq_size, Hcov'|]. apply size_union_list_le. }
        rewrite Hle. by apply IH.
    + right. apply IH; auto.
      intros s Hs. specialize (Hcov s Hs).
      destruct (decide (s = sel)) as [->|Hsne]; [|set_solver].
      apply elem_of_union_l. destruct (decide (sel ∈ P)); [done|].
      exfalso. by apply Hno.
Qed.

Lemma search_complete (k : nat) (rest : list selection) (P S : gset selection) :
  size S = k -> pairwise_disjoint S ->
  P ⊆ S -> S ⊆ P ∪ list_to_set rest ->
  S ∈ search k rest P.
Proof.
  intros HS Hpw HP Hcov. unfold search.
  destruct (size P =? k)%nat eqn:Hk.
  - apply Nat.eqb_eq in Hk. apply list_elem_of_singleton.
    symmetry. apply set_subseteq_size_eq; [done|lia].
  - apply Nat.eqb_neq in Hk.
    assert (Hle : (k <=? size P + length rest)%nat = true).
    { apply Nat.leb_le. rewrite <- HS.
      etransitivity; [apply subseteq_size, Hcov|]. apply size_union_list_le. }
    rewrite Hle. by apply search_loop_complete.
Qed.

(** ** Each packing is yielded once *)

Lemma search_loop_NoDup (k : nat) (rest : list selection) (P : gset selection) :
  NoDup rest -> (forall s, s ∈ rest -> s ∉ P) ->
  NoDup (search_loop k rest P).
Proof.
  revert P. induction rest as [|sel rest IH]; intros P Hnd Hfresh; simpl;
    [constructor|].
  apply NoDup_cons in Hnd as [Hsel Hnd].
  assert (HselP : sel ∉ P) by (apply Hfresh; left).
  apply NoDup_app. split; [|split].
  - destruct (all_disjoint sel P); [|constructor].
    destruct (size _ =? k)%nat; [apply NoDup_singleton|].
    destruct (k <=? _)%nat; [|constructor].
    apply IH; [done|]. intros s Hs. apply not_elem_of_union. split.
    + apply Hfresh. by right.
    + apply not_elem_of_singleton. by intros ->.
  - intros S HS1 HS2.
    apply search_loop_sound in HS2 as (_ & _ & Hsub & _).
    assert (Hin : sel ∈ S).
    { destruct (all_disjoint sel P); [|by apply elem_of_nil in HS1].
      destruct (size _ =? k)%nat.
      - apply list_elem_of_singleton in HS1 as ->. set_solver.
      - destruct (k <=? _)%nat; [|by apply elem_of_nil in HS1].
        apply search_loop_sound in HS1 as (_ & Hsup & _). set_solver. }
    specialize (Hsub sel Hin). apply elem_of_union in Hsub as [?|Hr]; [done|].
    by apply elem_of_list_to_set in Hr.
  - apply IH; [done|]. intros s Hs. apply Hfresh. by right.
Qed.

Lemma search_NoDup (k : nat) (rest : list selection) (P : gset selection) :
  NoDup rest -> (forall s, s ∈ rest -> s ∉ P) -> NoDup (search k rest P).
Proof.
  intros. unfold search. destruct (size P =? k)%nat; [apply NoDup_singleton|].
  destruct (k <=? _)%nat; [by apply search_loop_NoDup|constructor].
Qed.

(** ** Counting the yields *)

Lemma count_packings_nil (d : nat) : count_packings (S d) [] = 0%nat.
Proof. reflexivity. Qed.

Lemma count_packings_cons (d : nat) (sel : selection) (l : list selection) :
  count_packings (S d) (sel :: l) =
  (count_packings d (List.filter (fun t => is_disjoint t sel) l)
   + count_packings (S d) l)%nat.
Proof. by destruct d. Qed.

Lemma count_packings_short (d : nat) (cands : list selection) :
  (length cands < d)%nat -> count_packings d cands = 0%nat.
Proof.
  revert cands. induction d as [|d IHd]; intros cands Hlen; [lia|].
  induction cands as [|sel l IHl]; [reflexivity|].
  rewrite count_packings_cons. simpl in Hlen.
  rewrite IHl by lia. rewrite IHd; [reflexivity|].
  pose proof (List.filter_length_le (fun t => is_disjoint t sel) l). lia.
Qed.

Lemma filter_all_disjoint_union (sel : selection) (P : gset selection)
    (rest : list selection) :
  List.filter (fun t => all_disjoint t (P ∪ {[sel]})) rest =
  List.filter (fun t => is_disjoint t sel)
              (List.filter (fun t => all_disjoint t P) rest).
Proof.
  induction rest as [|t rest IH]; [reflexivity|].
  simpl. rewrite all_disjoint_union.
  destruct (all_disjoint t P); simpl; [|exact IH].
  destruct (is_disjoint t sel); by rewrite IH.
Qed.

Lemma search_loop_length (k d : nat) (rest : list selection) (P : gset selection) :
  (size P + S d = k)%nat -> Forall (fun s => s ≠ []) rest ->
  length (search_loop k rest P) =
  count_packings (S d) (List.filter (fun s => all_disjoint s P) rest).
Proof.
  revert k P rest. induction d as [|d IHd]; intros k P rest Hk Hne;
    (induction rest as [|sel rest IHrest]; [reflexivity|]);
    apply Forall_cons in Hne as [Hsel Hne]; simpl search_loop; simpl List.filter;
    rewrite length_app, (IHrest Hne);
    (destruct (all_disjoint sel P) eqn:Hd; [|reflexivity]);
    rewrite count_packings_cons; f_equal;
    (assert (Hfresh : sel ∉ P)
      by (intros Hin; rewrite all_disjoint_true in Hd;
          by apply Hsel, is_disjoint_self, Hd));
    (assert (Hsize : size (P ∪ {[sel]}) = S (size P))
      by (rewrite size_union by set_solver; rewrite size_singleton; lia)).
  - rewrite Hsize. replace (S (size P) =? k)%nat with true
      by (symmetry; apply Nat.eqb_eq; lia). reflexivity.
  - rewrite Hsize. replace (S (size P) =? k)%nat with false
      by (symmetry; apply Nat.eqb_neq; lia).
    destruct (k <=? S (size P) + length rest)%nat eqn:Hle.
    + rewrite (IHd k) by (auto; lia). by rewrite filter_all_disjoint_union.
    + apply Nat.leb_gt in Hle. symmetry. apply count_packings_short.
      pose proof (List.filter_length_le (fun t => is_disjoint t sel)
                    (List.filter (fun s => all_disjoint s P) rest)).
      pose proof (List.filter_length_le (fun s => all_disjoint s P) rest). lia.
Qed.

Lemma filter_all_disjoint_empty (rest : list selection) :
  List.filter (fun s => all_disjoint s ∅) rest = rest.
Proof.
  induction rest as [|s rest IH]; [reflexivity|].
  simpl. rewrite all_disjoint_empty. by rewrite IH.
Qed.

Lemma search_length (k : nat) (rest : list selection) :
  Forall (fun s => s ≠ []) rest ->
  length (search k rest ∅) = count_packings k rest.
Proof.
  intros Hne. unfold search. rewrite size_empty.
  destruct k as [|d]; [reflexivity|].
  simpl Nat.eqb. cbv iota.
  destruct (S d <=? 0 + length rest)%nat eqn:Hle.
  - rewrite (search_loop_length (S d) d) by (rewrite ?size_empty; auto).
    by rewrite filter_all_disjoint_empty.
  - apply Nat.leb_gt in Hle. symmetry. apply count_packings_short. lia.
Qed.

(** ** [combinations] *)

Lemma combinations_0 {A} (l : list A) : combinations l 0 = [[]].
Proof. by destruct l. Qed.

Lemma combinations_sublist {A} (l : list A) (r : nat) (c : list A) :
  c ∈ combinations l r -> c `sublist_of` l /\ length c = r.
Proof.
  revert r c. induction l as [|x l IH]; intros [|r] c; simpl.
  - intros ->%list_elem_of_singleton. split; [constructor|done].
  - by intros ?%elem_of_nil.
  - intros ->%list_elem_of_singleton. split; [apply sublist_nil_l|done].
  - intros [H|H]%elem_of_app.
    + apply list_elem_of_fmap in H as (c' & -> & H). apply IH in H as [H1 H2].
      split; [by apply sublist_skip|simpl; lia].
    + apply IH in H as [H1 H2]. split; [by apply sublist_cons|done].
Qed.

Lemma sublist_combinations {A} (l : list A) (c : list A) :
  c `sublist_of` l -> c ∈ combinations l (length c).
Proof.
  induction 1 as [|x c l _ IH|x c l _ IH]; simpl.
  - left.
  - apply elem_of_app. left. apply list_elem_of_fmap. eauto.
  - destruct c as [|y c]; simpl in *.
    + left.
    + apply elem_of_app. by right.
Qed.

Lemma combinations_NoDup {A} (l : list A) (r : nat) :
  NoDup l -> NoDup (combinations l r).
Proof.
  revert r. induction l as [|x l IH]; intros [|r] Hnd; simpl;
    try apply NoDup_singleton; [constructor|].
  apply NoDup_cons in Hnd as [Hx Hnd].
  apply NoDup_app. split; [|split].
  - apply NoDup_fmap_2; [|by apply IH]. by intros ?? [=].
  - intros c (c' & -> & _)%list_elem_of_fmap Hc.
    apply combinations_sublist in Hc as [Hc _].
    apply Hx. apply (sublist_subseteq _ _ Hc). left.
  - by apply IH.
Qed.

(** ** [multimap] *)

Section multimap.
Context {A : Type} (key : A -> Z).

Lemma getitem_append_at (d : dict (list A)) (k : Z) (x : A) (k' : Z) :
    getitem (append_at d k x) k' =
    if k =? k' then getitem d k' ++ [x] else getitem d k'.
Proof.
    induction d as [|[k0 v] d IH]; simpl.
    - by destruct (k =? k').
    - destruct (k0 =? k) eqn:H0; simpl.
      + apply Z.eqb_eq in H0 as ->. by destruct (k =? k').
      + rewrite IH. destruct (k0 =? k') eqn:H1; [|done].
        apply Z.eqb_eq in H1 as ->. rewrite Z.eqb_sym in H0. by rewrite H0.
Qed.

Lemma keys_append_at (d : dict (list A)) (k : Z) (x : A) :
    keys (append_at d k x) = if decide (k ∈@{list Z} keys d) then keys d else keys d ++ [k].
Proof.
    unfold keys. induction d as [|[k0 v] d IH]; simpl.
    - done.
    - destruct (k0 =? k) eqn:H0; simpl.
      + apply Z.eqb_eq in H0 as ->.
        destruct (decide (_ ∈ _ :: _)) as [_|H]; [done|]. exfalso. apply H. left.
      + apply Z.eqb_neq in H0. rewrite IH.
        destruct (decide (k ∈ map fst d)) as [H|H];
          destruct (decide (k ∈ k0 :: map fst d)) as [H'|H']; try done.
        * exfalso. apply H'. by right.
        * apply elem_of_cons in H' as [->|?]; done.
Qed.

Lemma entries_append_at (d : dict (list A)) (k : Z) (x : A) :
    concat (map snd (append_at d k x)) ≡ₚ concat (map snd d) ++ [x].
Proof.
    induction d as [|[k0 v] d IH]; simpl; [done|].
    destruct (k0 =? k); simpl.
    - rewrite <- !app_assoc. f_equiv. apply Permutation_app_comm.
    - rewrite IH. by rewrite app_assoc.
Qed.

Lemma multimap_snoc (items : list A) (x : A) :
    multimap (items ++ [x]) key = append_at (multimap items key) (key x) x.
Proof. unfold multimap. by rewrite fold_left_app. Qed.

Lemma getitem_multimap (items : list A) (n : Z) :
    getitem (multimap items key) n = List.filter (fun x => key x =? n) items.
Proof.
    induction items as [|x items IH] using rev_ind; [done|].
    rewrite multimap_snoc, getitem_append_at, IH, List.filter_app. simpl.
    destruct (key x =? n); [done|by rewrite app_nil_r].
Qed.

Lemma elem_of_keys_multimap (items : list A) (n : Z) :
    n ∈ keys (multimap items key) <-> exists x, x ∈ items /\ key x = n.
Proof.
    induction items as [|x items IH] using rev_ind.
    - split; [by intros ?%elem_of_nil|]. by intros (x & ?%elem_of_nil & _).
    - rewrite multimap_snoc, keys_append_at.
      destruct (decide (key x ∈ keys (multimap items key))) as [Hin|Hnin].
      + rewrite IH. split.
        * intros (y & Hy & <-). exists y. split; [|done]. apply elem_of_app. by left.
        * intros (y & [Hy|Hy%list_elem_of_singleton]%elem_of_app & <-); [eauto|].
          subst y. by apply IH.
      + rewrite elem_of_app, IH, list_elem_of_singleton. split.
        * intros [(y & Hy & <-)| ->].
          -- exists y. split; [|done]. apply elem_of_app. by left.
          -- exists x. split; [|done]. apply elem_of_app. right. left.
        * intros (y & [Hy|Hy%list_elem_of_singleton]%elem_of_app & <-);
            [eauto|subst y; eauto].
Qed.

Lemma keys_multimap_NoDup (items : list A) : NoDup (keys (multimap items key)).
Proof.
    induction items as [|x items IH] using rev_ind; [constructor|].
    rewrite multimap_snoc, keys_append_at.
    case_decide as Hnin; [done|].
    apply NoDup_app. split; [done|]. split; [|apply NoDup_singleton].
    intros k Hk Hk'%list_elem_of_singleton. by subst k.
Qed.

Lemma entries_multimap (items : list A) :
    concat (map snd (multimap items key)) ≡ₚ items.
Proof.
    induction items as [|x items IH] using rev_ind; [done|].
    by rewrite multimap_snoc, entries_append_at, IH.
Qed.

Lemma getitem_entry (d : dict (list A)) (n : Z) (g : list A) :
    NoDup (keys d) -> (n, g) ∈ d -> getitem d n = g.
Proof.
    unfold keys. induction d as [|[k0 v] d IH]; simpl; [by intros _ ?%elem_of_nil|].
    intros [Hk Hnd]%NoDup_cons [[= <- <-]|Hin]%elem_of_cons.
    - by rewrite Z.eqb_refl.
    - destruct (k0 =? n) eqn:H0; [|by apply IH].
      apply Z.eqb_eq in H0 as ->. exfalso. apply Hk.
      apply list_elem_of_fmap. by exists (n, g).
Qed.

Lemma multimap_entry (items : list A) (n : Z) (g : list A) :
    (n, g) ∈ multimap items key -> g = List.filter (fun x => key x =? n) items.
Proof.
    intros H. rewrite <- getitem_multimap. symmetry.
    apply getitem_entry; [apply keys_multimap_NoDup|done].
Qed.
End multimap.

(** ** Arithmetic of a packing *)

Lemma pow5_lt (a b : Z) : 0 <= a -> a < b -> a ^ 5 < b ^ 5.
Proof. intros. apply Z.pow_lt_mono_l; lia. Qed.

Lemma fifth_power_divides_154350 (a : Z) : 0 < a -> (a ^ 5 | 154350) -> a = 1.
Proof.
  intros Ha Hdiv.
  assert (Hle : a ^ 5 <= 154350) by (apply Z.divide_pos_le; [lia|done]).
  assert (Hlt : a < 11).
  { destruct (Z_lt_ge_dec a 11) as [|Hge]; [done|].
    assert (11 ^ 5 <= a ^ 5) by (apply Z.pow_le_mono_l; lia).
    change (11 ^ 5) with 161051 in *. lia. }
  apply Z.mod_divide in Hdiv; [|lia].
  assert (Hcases : a = 1 \/ a = 2 \/ a = 3 \/ a = 4 \/ a = 5 \/ a = 6 \/ a = 7
                   \/ a = 8 \/ a = 9 \/ a = 10) by lia.
  repeat (destruct Hcases as [->|Hcases]; [try done; vm_compute in Hdiv; done|]).
  subst. vm_compute in Hdiv. done.
Qed.

Lemma equal_product_unique (n q : Z) :
  0 < n -> 0 < q <= 343000 -> n ^ 5 * q = N21 ^ 5 * 154350 -> n = N21.
Proof.
  intros Hn Hq Heq.
  set (g := Z.gcd n N21).
  assert (HN : 0 < N21) by done.
  assert (Hg : 0 < g).
  { pose proof (Z.gcd_nonneg n N21). 
    assert (g <> 0) by (unfold g; intros [? _]%Z.gcd_eq_0; lia). lia. }
  destruct (Z.gcd_divide_l n N21) as [a Ha]. fold g in Ha.
  destruct (Z.gcd_divide_r n N21) as [b Hb]. fold g in Hb.
  assert (Ha0 : 0 < a) by nia.
  assert (Hb0 : 0 < b) by nia.
  assert (Hab : Z.gcd a b = 1).
  { replace a with (n / g) by (rewrite Ha; apply Z.div_mul; lia).
    replace b with (N21 / g) by (rewrite Hb; apply Z.div_mul; lia).
    apply Z.gcd_div_gcd; [lia|done]. }
  assert (Heq' : a ^ 5 * q = b ^ 5 * 154350).
  { rewrite Ha, Hb, !Z.pow_mul_l in Heq.
    assert (0 < g ^ 5) by (apply Z.pow_pos_nonneg; lia). nia. }
  assert (Hrel : Z.gcd (a ^ 5) (b ^ 5) = 1).
  { apply Z.coprime_pow_l; [lia|]. apply Z.coprime_pow_r; [lia|done]. }
  assert (Hdiv : (a ^ 5 | 154350)).
  { apply (Z.gauss _ (b ^ 5)); [|done]. exists q. lia. }
  apply fifth_power_divides_154350 in Hdiv as ->; [|done].
  assert (Hb1 : b < 2).
  { destruct (Z_lt_ge_dec b 2) as [|Hge]; [done|].
    assert (2 ^ 5 <= b ^ 5) by (apply Z.pow_le_mono_l; lia).
    change (2 ^ 5) with 32 in *. change (1 ^ 5) with 1 in *. lia. }
  assert (b = 1) by lia. subst b. lia.
Qed.

Lemma product_universe28 : product universe28 = N21 ^ 5 * 154350.
Proof. reflexivity. Qed.

Lemma universe28_NoDup : NoDup universe28.
Proof. apply (bool_decide_unpack _). by vm_compute. Qed.

Lemma universe28_bounds : Forall (fun x => 1 <= x <= 70) universe28.
Proof. unfold universe28. repeat constructor; lia. Qed.

(** The concatenation of pairwise disjoint duplicate-free tuples. *)
Lemma concat_NoDup (L : list selection) :
  NoDup L -> Forall NoDup L ->
  (forall A B, A ∈ L -> B ∈ L -> A ≠ B -> is_disjoint A B = true) ->
  NoDup (concat L).
Proof.
  induction L as [|s L IH]; intros HL Hs Hd; simpl; [constructor|].
  apply NoDup_cons in HL as [HsL HL]. apply Forall_cons in Hs as [Hs HsAll].
  apply NoDup_app. split; [done|]. split.
  - intros x Hx Hc. apply list_elem_of_In, in_concat in Hc as (t & Ht & Hxt).
    apply list_elem_of_In in Ht, Hxt.
    assert (Hst : is_disjoint s t = true).
    { apply Hd; [left|by right|]. by intros ->. }
    rewrite is_disjoint_true in Hst. by apply (Hst x).
  - apply IH; [done|done|]. intros A B HA HB. apply Hd; by right.
Qed.

Lemma concat_length5 (L : list selection) :
  Forall (fun s => length s = 5%nat) L -> length (concat L) = (5 * length L)%nat.
Proof.
  induction 1 as [|s L Hs _ IH]; [done|]. simpl. rewrite length_app, Hs, IH. lia.
Qed.

Lemma packing_product (S : gset selection) (n : Z) :
  size S = 5%nat -> pairwise_disjoint S ->
  (forall s, s ∈ S -> s `sublist_of` universe28 /\ length s = 5%nat /\ product s = n) ->
  exists q, 0 < q <= 343000 /\ n ^ 5 * q = product universe28.
Proof.
  intros Hsize Hpw Hmem. rewrite pairwise_disjoint_is_disjoint in Hpw.
  set (L := elements S).
  assert (HL : NoDup L) by apply NoDup_elements.
  assert (HlenL : length L = 5%nat) by done.
  assert (HinL : forall s, s ∈ L -> s ∈ S) by (intros s; apply elem_of_elements).
  clearbody L.
  assert (Hnd : NoDup (concat L)).
  { apply concat_NoDup; [done| |].
    - apply Forall_forall. intros s Hs. destruct (Hmem s (HinL s Hs)) as (Hsub & _).
      apply (sublist_NoDup _ _ universe28_NoDup Hsub).
    - intros A B HA HB. apply Hpw; auto. }
  assert (Hsub : concat L ⊆+ universe28).
  { apply NoDup_submseteq; [done|]. intros x Hx.
    apply list_elem_of_In, in_concat in Hx as (t & Ht & Hxt).
    apply list_elem_of_In in Ht, Hxt.
    destruct (Hmem t (HinL t Ht)) as (Hs & _).
    by apply (sublist_subseteq _ _ Hs). }
  apply submseteq_Permutation in Hsub as [rest Hperm].
  assert (Hlen : length rest = 3%nat).
  { apply Permutation_length in Hperm. rewrite length_app, concat_length5, HlenL in Hperm.
    - change (length universe28) with 28%nat in Hperm. lia.
    - apply Forall_forall. intros s Hs. by destruct (Hmem s (HinL s Hs)) as (_ & ? & _). }
  assert (Hb : Forall (fun x => 1 <= x <= 70) rest).
  { apply Forall_forall. intros x Hx.
    pose proof universe28_bounds as HU. rewrite Forall_forall in HU. apply HU.
    rewrite Hperm. apply elem_of_app. by right. }
  apply product_bounds in Hb. rewrite Hlen in Hb. change (70 ^ Z.of_nat 3) with 343000 in Hb.
  exists (product rest). split; [lia|].
  rewrite (product_Permutation _ _ Hperm), product_app. f_equal.
  rewrite (product_concat L n); [by rewrite HlenL|].
  apply Forall_forall. intros s Hs. by destruct (Hmem s (HinL s Hs)) as (_ & _ & ?).
Qed.

(** ** Discovery *)

Lemma any_true (results : list (gset (list Z))) :
  any results = true <-> exists S, S ∈ results /\ size S ≠ 0%nat.
Proof.
  unfold any. rewrite existsb_exists. split.
  - intros (S & HS & Hne). exists S. split; [by apply list_elem_of_In|].
    apply negb_true_iff, bool_decide_eq_false in Hne. done.
  - intros (S & HS & Hne). exists S. split; [by apply list_elem_of_In|].
    by apply negb_true_iff, bool_decide_eq_false.
Qed.

Lemma scan_cons_false (products : list (Z * list (list Z))) (n : Z) (ks : list Z) :
  any (search 5 (getitem products n) ∅) = false ->
  scan products (n :: ks) = (n :: (scan products ks).1, (scan products ks).2).
Proof. intros H. simpl. rewrite k_disjoint_search, H. done. Qed.

Lemma scan_cons_true (products : list (Z * list (list Z))) (n : Z) (ks : list Z) :
  any (search 5 (getitem products n) ∅) = true ->
  scan products (n :: ks) = ([n], Return n).
Proof. intros H. simpl. rewrite k_disjoint_search, H. done. Qed.

Lemma scan_exhausted (products : list (Z * list (list Z))) (ks : list Z) :
  (forall n, n ∈ ks -> any (search 5 (getitem products n) ∅) = false) ->
  scan products ks = (ks, Raise StopIteration).
Proof.
  induction ks as [|n ks IH]; intros H; [done|].
  rewrite scan_cons_false by (apply H; left).
  rewrite IH; [done|]. intros m Hm. apply H. by right.
Qed.

Lemma scan_found (products : list (Z * list (list Z))) (ks1 ks2 : list Z) (n : Z) :
  (forall m, m ∈ ks1 -> any (search 5 (getitem products m) ∅) = false) ->
  any (search 5 (getitem products n) ∅) = true ->
  scan products (ks1 ++ n :: ks2) = (ks1 ++ [n], Return n).
Proof.
  induction ks1 as [|m ks1 IH]; intros H Hn; simpl app.
  - by apply scan_cons_true.
  - rewrite scan_cons_false by (apply H; left).
    rewrite IH; [done| |done]. intros m' Hm'. apply H. by right.
Qed.

(** ** The canonical run *)

Lemma group_member (n : Z) (s : list Z) :
  s ∈ group n -> s `sublist_of` universe28 /\ length s = 5%nat /\ product s = n.
Proof.
  intros [Hc Hp]%list_elem_of_In%filter_In. apply list_elem_of_In in Hc.
  apply combinations_sublist in Hc as [? ?]. apply Z.eqb_eq in Hp. done.
Qed.

Lemma group_nonempty_members (n : Z) : Forall (fun s => s ≠ []) (group n).
Proof.
  apply Forall_forall. intros s (_ & Hlen & _)%group_member. by destruct s.
Qed.

Lemma group_NoDup (n : Z) : NoDup (group n).
Proof.
  apply NoDup_ListNoDup, List.NoDup_filter, NoDup_ListNoDup,
    combinations_NoDup, universe28_NoDup.
Qed.

Lemma group_packing_unique (n : Z) :
  any (search 5 (group n) ∅) = true -> n = N21.
Proof.
  intros (S & HS & Hne)%any_true.
  apply search_sound in HS as (Hsize & _ & Hsub & Hpw).
  specialize (Hpw pairwise_disjoint_empty).
  assert (Hmem : forall s, s ∈ S ->
            s `sublist_of` universe28 /\ length s = 5%nat /\ product s = n).
  { intros s Hs. apply group_member. specialize (Hsub s Hs).
    apply elem_of_union in Hsub as [Hsub|Hsub]; [by apply not_elem_of_empty in Hsub|].
    by apply elem_of_list_to_set in Hsub. }
  destruct (packing_product S n Hsize Hpw Hmem) as (q & Hq & Heq).
  rewrite product_universe28 in Heq.
  apply (equal_product_unique n q); [|done|done].
  destruct (size_pos_elem_of S ltac:(lia)) as [s Hs].
  destruct (Hmem s Hs) as (Hsl & _ & <-).
  assert (Hb : Forall (fun x => 1 <= x <= 70) s).
  { apply Forall_forall. intros x Hx.
    pose proof universe28_bounds as HU. rewrite Forall_forall in HU. apply HU.
    by apply (sublist_subseteq _ _ Hsl). }
  apply product_bounds in Hb. lia.
Qed.

Lemma group_N21_count : Z.of_nat (count_packings 5 (group N21)) = 12781.
Proof. vm_cast_no_check (eq_refl 12781). Qed.

(** ** The generator on the store *)

Lemma py_bind_run {A B : Type} (m : py A) (f : A -> py B) st a st' :
  m st = (Return a, st') -> py_bind m f st = f a st'.
Proof. intros H. unfold py_bind. by rewrite H. Qed.

Lemma allocates_only_ret {A : Type} (a : A) : allocates_only (py_ret a).
Proof. intros st. done. Qed.

Lemma allocates_only_raise {A : Type} (e : exn) : allocates_only (@py_raise A e).
Proof. intros st. done. Qed.

Lemma allocates_only_bind {A B : Type} (m : py A) (f : A -> py B) :
  allocates_only m -> (forall a, allocates_only (f a)) ->
  allocates_only (py_bind m f).
Proof.
  intros Hm Hf st. unfold py_bind. specialize (Hm st).
  destruct (m st) as [[a|e|] st']; simpl in *; [|done|done].
  etrans; [exact Hm|apply Hf].
Qed.

Lemma allocates_only_read_set (r : nat) : allocates_only (read_set r).
Proof. intros st. unfold read_set. by destruct (st !! r) as [[?|?]|]. Qed.

Lemma allocates_only_read_list (r : nat) : allocates_only (read_list r).
Proof. intros st. unfold read_list. by destruct (st !! r) as [[?|?]|]. Qed.

Lemma allocates_only_alloc (o : object) : allocates_only (alloc o).
Proof. intros st. simpl. by apply prefix_app_r. Qed.

Lemma allocates_only_list_getitem (r i : nat) : allocates_only (list_getitem r i).
Proof.
  apply allocates_only_bind; [apply allocates_only_read_list|].
  intros l. destruct (l !! i); [apply allocates_only_ret|apply allocates_only_raise].
Qed.

Lemma allocates_only_set_or_singleton (a : nat) (x : list Z) :
  allocates_only (set_or_singleton a x).
Proof.
  apply allocates_only_bind; [apply allocates_only_read_set|].
  intros s. apply allocates_only_alloc.
Qed.

Lemma allocates_only_for_yield {A : Type} (body : A -> py (list nat)) (l : list A) :
  (forall x, allocates_only (body x)) -> allocates_only (for_yield body l).
Proof.
  intros Hbody. induction l as [|x l IH]; simpl; [apply allocates_only_ret|].
  apply allocates_only_bind; [done|]. intros ys.
  apply allocates_only_bind; [done|]. intros r. apply allocates_only_ret.
Qed.

Lemma allocates_only_k_disjoint_store (fuel k selections start partial : nat) :
  allocates_only (k_disjoint_store fuel k selections start partial).
Proof.
  revert start partial. induction fuel as [|fuel IH]; intros start partial; [by intros st|].
  simpl. apply allocates_only_bind; [apply allocates_only_read_set|]. intros p.
  destruct (size p =? k)%nat; [apply allocates_only_ret|].
  apply allocates_only_bind; [apply allocates_only_read_list|]. intros sels.
  destruct (k <=? _)%nat; [|apply allocates_only_ret].
  apply allocates_only_for_yield. intros i.
  apply allocates_only_bind; [apply allocates_only_list_getitem|]. intros sel.
  apply allocates_only_bind; [apply allocates_only_read_set|]. intros p'.
  destruct (all_disjoint sel p'); [|apply allocates_only_ret].
  apply allocates_only_bind; [apply allocates_only_set_or_singleton|]. intros r.
  apply IH.
Qed.

Lemma allocates_only_call (default k selections : nat) :
  allocates_only (call_k_disjoint default k selections).
Proof.
  apply allocates_only_bind; [apply allocates_only_read_list|]. intros sels.
  apply allocates_only_k_disjoint_store.
Qed.

(** ** The store model yields what the value model yields *)

Lemma values_prefix (st st' : list object) (rs : list nat) (results : list (gset (list Z))) :
  st `prefix_of` st' -> values st rs = set_values results ->
  values st' rs = set_values results.
Proof.
  intros Hpre. revert results. induction rs as [|r rs IH]; intros [|s results]; simpl;
    try done.
  intros [= Hr Hrs]. f_equal; [|by apply IH].
  by apply (prefix_lookup_Some _ _ _ _ Hr).
Qed.

Lemma values_app (st : list object) (rs1 rs2 : list nat) :
  values st (rs1 ++ rs2) = values st rs1 ++ values st rs2.
Proof. unfold values. apply map_app. Qed.

Lemma k_disjoint_store_search (fuel k selections : nat) (sels : list (list Z)) :
  forall (start partial : nat) (P : gset (list Z)) (st : list object),
  st !! selections = Some (ListObj sels) ->
  st !! partial = Some (SetObj P) ->
  (length sels - start < fuel)%nat ->
  exists rs st',
    k_disjoint_store fuel k selections start partial st = (Return rs, st') /\
    st `prefix_of` st' /\
    values st' rs = set_values (search k (drop start sels) P).
Proof.
  induction fuel as [|fuel IH]; intros start partial P st Hsel Hpart Hfuel; [lia|].
  simpl k_disjoint_store. unfold search. rewrite length_drop.
  rewrite (py_bind_run _ _ st P st) by (unfold read_set; by rewrite Hpart).
  destruct (size P =? k)%nat.
  { exists [partial], st. split; [done|]. split; [done|]. simpl. by rewrite Hpart. }
  rewrite (py_bind_run _ _ st sels st) by (unfold read_list; by rewrite Hsel).
  destruct (k <=? size P + (length sels - start))%nat;
    [|exists [], st; by repeat split].
  assert (Hloop : forall m j st0, (start <= j)%nat -> m = (length sels - j)%nat ->
    st `prefix_of` st0 ->
    exists rs st',
      for_yield (fun i =>
          let* sel := list_getitem selections i in
          let* p := read_set partial in
          if all_disjoint sel p
          then let* p' := set_or_singleton partial sel in
               k_disjoint_store fuel k selections (i + 1)%nat p'
          else py_ret []) (seq j m) st0 = (Return rs, st') /\
      st0 `prefix_of` st' /\
      values st' rs = set_values (search_loop k (drop j sels) P)).
  { induction m as [|m IHm]; intros j st0 Hj Hm Hpre.
    - exists [], st0. rewrite drop_ge by lia. by repeat split.
    - destruct (lookup_lt_is_Some_2 sels j ltac:(lia)) as [sel Hlook].
      rewrite (drop_S _ _ _ Hlook), search_unfold. simpl seq. simpl for_yield.
      assert (Hsel0 := prefix_lookup_Some _ _ _ _ Hsel Hpre).
      assert (Hpart0 := prefix_lookup_Some _ _ _ _ Hpart Hpre).
      assert (Hbody : exists rs1 st1,
        (let* sel := list_getitem selections j in
         let* p := read_set partial in
         if all_disjoint sel p
         then let* p' := set_or_singleton partial sel in
              k_disjoint_store fuel k selections (j + 1)%nat p'
         else py_ret []) st0 = (Return rs1, st1) /\
        st0 `prefix_of` st1 /\
        values st1 rs1 =
          set_values (if all_disjoint sel P
                      then search k (drop (S j) sels) (P ∪ {[sel]}) else [])).
      { rewrite (py_bind_run _ _ st0 sel st0); cycle 1.
        { unfold list_getitem. rewrite (py_bind_run _ _ st0 sels st0)
            by (unfold read_list; by rewrite Hsel0). by rewrite Hlook. }
        rewrite (py_bind_run _ _ st0 P st0) by (unfold read_set; by rewrite Hpart0).
        destruct (all_disjoint sel P); [|exists [], st0; by repeat split].
        rewrite (py_bind_run _ _ st0 (length st0) (st0 ++ [SetObj (P ∪ {[sel]})])); cycle 1.
        { unfold set_or_singleton. rewrite (py_bind_run _ _ st0 P st0)
            by (unfold read_set; by rewrite Hpart0). done. }
        assert (Hpre1 : st0 `prefix_of` st0 ++ [SetObj (P ∪ {[sel]})])
          by apply prefix_app_r, reflexivity.
        destruct (IH (j + 1)%nat (length st0) (P ∪ {[sel]})
                    (st0 ++ [SetObj (P ∪ {[sel]})])) as (rs1 & st1 & Hrun & Hpre2 & Hval).
        - by apply (prefix_lookup_Some _ _ _ _ Hsel0).
        - rewrite lookup_app_r by lia. by rewrite Nat.sub_diag.
        - lia.
        - exists rs1, st1. split; [done|]. split; [by etrans|].
          by rewrite Nat.add_1_r in Hval. }
      destruct Hbody as (rs1 & st1 & Hrun1 & Hpre1 & Hval1).
      destruct (IHm (S j) st1 ltac:(lia) ltac:(lia) ltac:(by etrans))
        as (rs2 & st2 & Hrun2 & Hpre2 & Hval2).
      exists (rs1 ++ rs2), st2.
      rewrite (py_bind_run _ _ st0 rs1 st1 Hrun1).
      rewrite (py_bind_run _ _ st1 rs2 st2 Hrun2).
      split; [done|]. split; [by etrans|].
      rewrite values_app, Hval2, (values_prefix st1 st2 rs1 _ Hpre2 Hval1).
      unfold set_values. by rewrite map_app. }
  apply (Hloop _ start st); [lia|done|done].
Qed.

(** ** The canonical pipeline *)

Lemma obind_Return {A B : Type} (a : A) (f : A -> outcome B) :
  obind (Return a) f = f a.
Proof. reflexivity. Qed.

Lemma numbers_pass1_eq : numbers_pass1 = Return (list_to_set numbers41).
Proof. vm_cast_no_check (eq_refl (Return (list_to_set numbers41 : gset Z))). Qed.

Lemma prime_counts_eq :
  prime_counts_of (list_to_set numbers41) = Return (list_to_map prime_counts41).
Proof.
  vm_cast_no_check (eq_refl (Return (list_to_map prime_counts41 : gmap Z nat))).
Qed.

Lemma numbers_pass2_eq :
  numbers_pass2 (list_to_set numbers41) (list_to_map prime_counts41)
  = Return (list_to_set universe28).
Proof. vm_cast_no_check (eq_refl (Return (list_to_set universe28 : gset Z))). Qed.

Lemma numbers41_size : size (list_to_set numbers41 : gset Z) = 41%nat.
Proof. vm_cast_no_check (eq_refl 41%nat). Qed.

Lemma universe28_size : size (list_to_set universe28 : gset Z) = 28%nat.
Proof. vm_cast_no_check (eq_refl 28%nat). Qed.

Lemma iter_universe28 : iter (list_to_set universe28) = universe28.
Proof. vm_cast_no_check (eq_refl universe28). Qed.

Lemma prime_counts28_eq :
  prime_counts_of (list_to_set universe28) = Return (list_to_map prime_counts28).
Proof.
  vm_cast_no_check (eq_refl (Return (list_to_map prime_counts28 : gmap Z nat))).
Qed.

Lemma numbers_pass2_again :
  numbers_pass2 (list_to_set universe28) (list_to_map prime_counts28)
  = Return (list_to_set universe28).
Proof. vm_cast_no_check (eq_refl (Return (list_to_set universe28 : gset Z))). Qed.

Lemma products_of_universe28 :
  products_of (list_to_set universe28) = multimap (combinations universe28 5) product.
Proof. unfold products_of. by rewrite iter_universe28. Qed.

Lemma getitem_products (n : Z) :
  getitem (multimap (combinations universe28 5) product) n = group n.
Proof. apply getitem_multimap. Qed.

Lemma search_group_N21_length : Z.of_nat (length (search 5 (group N21) ∅)) = 12781.
Proof.
  rewrite search_length by apply group_nonempty_members. apply group_N21_count.
Qed.

Lemma any_group_N21 : any (search 5 (group N21) ∅) = true.
Proof.
  apply any_true.
  destruct (search 5 (group N21) ∅) as [|S l] eqn:Hs.
  - pose proof search_group_N21_length as H. rewrite Hs in H. done.
  - exists S. split; [left|].
    assert (HS : S ∈ search 5 (group N21) ∅) by (rewrite Hs; left).
    apply search_sound in HS as (-> & _). done.
Qed.

Lemma N21_key : N21 ∈ keys (multimap (combinations universe28 5) product).
Proof.
  apply elem_of_keys_multimap.
  destruct (group N21) as [|c l] eqn:Hg.
  - pose proof group_N21_count as H. rewrite Hg in H. done.
  - assert (Hc : c ∈ group N21) by (rewrite Hg; left).
    apply list_elem_of_In, filter_In in Hc as [Hc Hp].
    exists c. split; [by apply list_elem_of_In|by apply Z.eqb_eq].
Qed.

Lemma scan_canonical :
  exists ks1 ks2,
    keys (multimap (combinations universe28 5) product) = ks1 ++ N21 :: ks2 /\
    scan (multimap (combinations universe28 5) product)
         (keys (multimap (combinations universe28 5) product))
    = (ks1 ++ [N21], Return N21).
Proof.
  destruct (list_elem_of_split _ _ N21_key) as (ks1 & ks2 & Hsplit).
  exists ks1, ks2. split; [done|].
  pose proof (keys_multimap_NoDup product (combinations universe28 5)) as Hnd.
  rewrite Hsplit in Hnd |- *.
  apply scan_found.
  - intros m Hm. rewrite getitem_products.
    destruct (any (search 5 (group m) ∅)) eqn:Hany; [|done].
    apply group_packing_unique in Hany as ->.
    apply NoDup_app in Hnd as (_ & Hdisj & _).
    exfalso. apply (Hdisj N21 Hm). left.
  - rewrite getitem_products. apply any_group_N21.
Qed.

Lemma discover_canonical :
  discover (multimap (combinations universe28 5) product) = Return N21.
Proof.
  unfold discover. destruct scan_canonical as (ks1 & ks2 & _ & ->). done.
Qed.

Ltac below_cases H :=
  match type of H with
  | _ <= ?q < _ =>
      let Hc := fresh "Hc" in
      assert (Hc : q = 2 \/ q = 3 \/ q = 4 \/ q = 5 \/ q = 6 \/ q = 7 \/ q = 8
                   \/ q = 9 \/ q = 10) by lia;
      repeat (destruct Hc as [Hc|Hc]; [subst q; first [discriminate|lia]|]);
      subst q; first [discriminate|lia]
  end.

Ltac factor_step p :=
  apply (factors_unfold _ p);
  [ apply first_divisor_Some; split; [lia|]; split; [reflexivity|];
    let q := fresh "q" in let Hq := fresh "Hq" in
    intros q Hq; try lia; below_cases Hq
  | lia
  | match goal with
    | |- factors ?e = _ => let v := eval vm_compute in e in change e with v
    end ].

Lemma factors_N21 :
  factors N21 = Return [2; 2; 2; 2; 2; 2; 2; 3; 3; 3; 3; 5; 5; 7; 11].
Proof.
  unfold N21.
  do 7 factor_step 2. do 4 factor_step 3. do 2 factor_step 5.
  factor_step 7. factor_step 11. reflexivity.
Qed.


(** ** Worked examples of the notebook *)

Example factors_12 : factors 12 = Return [2; 2; 3].
Proof. reflexivity. Qed.

Example factors_8 : factors 8 = Return [2; 2; 2].
Proof. reflexivity. Qed.

Example factors_0_raises : factors 0 = Raise StopIteration.
Proof. reflexivity. Qed.

(** Cell 11: the entry of [products] under 6 * 12 * 14 * 15 * 20. *)
Example products_302400 :
  getitem (products_of (list_to_set universe28)) (6 * 12 * 14 * 15 * 20) = cell19.
Proof.
  rewrite products_of_universe28, getitem_products.
  vm_cast_no_check (eq_refl cell19).
Qed.

(** Cell 17: two ways to pick five of the six selections. *)
Example k_disjoint_cell17 :
  k_disjoint 5 cell17
  = Return [ {[ [6; 60]; [10; 36]; [12; 30]; [15; 24]; [18; 20] ]};
             {[ [6; 60]; [12; 30]; [15; 24]; [18; 20]; [10; 35] ]} ].
Proof.
  vm_cast_no_check
    (eq_refl (Return [ ({[ [6; 60]; [10; 36]; [12; 30]; [15; 24]; [18; 20] ]}
                          : gset (list Z));
                       {[ [6; 60]; [12; 30]; [15; 24]; [18; 20]; [10; 35] ]} ])).
Qed.

(** Cell 19: no way to pick five of the six selections of product 302,400. *)
Example k_disjoint_cell19 : k_disjoint 5 cell19 = Return [].
Proof. vm_cast_no_check (eq_refl (@Return (list (gset (list Z))) [])). Qed.

(* ================================================================= *)
(** * The claims *)

(** C1.  For the canonical parameters (numbers 1..70, selections of size 5,
    five friends, at least two distinct prime factors) the notebook runs to
    its end: the discovery step returns 19,958,400, [factors] of that product
    is [2,2,2,2,2,2,2,3,3,3,3,5,5,7,11], and the enumeration over the
    product's group yields exactly 12,781 sets, no two of them equal. *)
Theorem canonical_puzzle :
  exists g, notebook = Return g /\
    g_N g = 19958400 /\
    g_factors_N g = [2; 2; 2; 2; 2; 2; 2; 3; 3; 3; 3; 5; 5; 7; 11] /\
    Z.of_nat (length (g_different_ways g)) = 12781 /\
    NoDup (g_different_ways g).
Proof.
  exists (Globals (list_to_set universe28) (list_to_map prime_counts41)
            (multimap (combinations universe28 5) product) N21
            [2; 2; 2; 2; 2; 2; 2; 3; 3; 3; 3; 5; 5; 7; 11]
            (search 5 (group N21) ∅)).
  split; [|split; [reflexivity|split; [reflexivity|split]]].
  - unfold notebook.
    rewrite numbers_pass1_eq. cbn [obind].
    rewrite prime_counts_eq. cbn [obind].
    rewrite numbers_pass2_eq. cbn [obind].
    rewrite products_of_universe28, discover_canonical. cbn [obind].
    rewrite factors_N21. cbn [obind].
    unfold different_ways_of. rewrite k_disjoint_search, getitem_products.
    reflexivity.
  - apply search_group_N21_length.
  - apply search_NoDup; [apply group_NoDup|].
    intros s _. apply not_elem_of_empty.
Qed.

(** C2, as stated, fails on an input in which a selection occurs twice: the
    generator walks over positions, so it can reach the same set along more
    than one path.  Here [(3, 4)] stands at positions 1 and 2, and the set
    [{(1, 2), (3, 4)}] is yielded twice. *)
Lemma k_disjoint_repeated_selection_yields_twice :
  k_disjoint 2 [[1; 2]; [3; 4]; [3; 4]]
  = Return [ {[ [1; 2]; [3; 4] ]}; {[ [1; 2]; [3; 4] ]} ].
Proof.
  vm_cast_no_check
    (eq_refl (Return [ ({[ [1; 2]; [3; 4] ]} : gset (list Z));
                       {[ [1; 2]; [3; 4] ]} ])).
Qed.

(** C2, amended.  For every [k] and every sequence of selections,
    [k_disjoint(k, selections)] returns, and the sets it yields are exactly
    the sets of [k] selections of the input that are pairwise disjoint: each
    yielded set has [k] members, all from the input, no two of which share a
    number, and every such set is yielded.  When no selection occurs twice in
    the input, each set is yielded exactly once.  Disjointness is
    [pairwise_disjoint], which speaks of the numbers of the selections and
    not of the code's test. *)
Theorem k_disjoint_packings (k : nat) (selections : list selection) :
  exists results, k_disjoint k selections = Return results /\
    (forall S, S ∈ results <->
               size S = k /\ S ⊆ list_to_set selections /\ pairwise_disjoint S) /\
    (NoDup selections -> NoDup results).
Proof.
  exists (search k selections ∅). split; [apply k_disjoint_search|]. split.
  - intros S. split.
    + intros (Hsize & _ & Hsub & Hpw)%search_sound.
      split; [done|]. split; [|apply Hpw, pairwise_disjoint_empty].
      intros s Hs. specialize (Hsub s Hs).
      apply elem_of_union in Hsub as [Hsub|Hsub]; [|done].
      by apply not_elem_of_empty in Hsub.
    + intros (Hsize & Hsub & Hpw). apply search_complete; [done|done| |].
      * intros s Hs. by apply not_elem_of_empty in Hs.
      * intros s Hs. apply elem_of_union_r. by apply Hsub.
  - intros Hnd. apply search_NoDup; [done|].
    intros s _. apply not_elem_of_empty.
Qed.

Lemma k_disjoint_packings_witness :
  NoDup cell17 /\
  exists results, k_disjoint 5 cell17 = Return results /\ NoDup results.
Proof.
  assert (Hnd : NoDup cell17) by (apply (bool_decide_unpack _); exact I).
  split; [exact Hnd|].
  destruct (k_disjoint_packings 5 cell17) as (results & Hrun & _ & Hunique).
  exists results. split; [exact Hrun|exact (Hunique Hnd)].
Defined.

(** C3.  For every [n] from 1 to 70, [factors(n)] returns a list whose
    product is [n] and whose elements are all prime; for [n = 1] the list is
    empty. *)
Theorem factors_product_and_primes (n : Z) :
  1 <= n <= 70 ->
  exists fs, factors n = Return fs /\ product fs = n /\ Forall prime fs /\
             (n = 1 -> fs = []).
Proof.
  intros Hn. destruct (factors_positive n ltac:(lia)) as (fs & Hfs & Hprod & Hprime).
  exists fs. repeat split; try done.
  intros ->. change (factors 1) with (@Return (list Z) []) in Hfs. congruence.
Qed.

Lemma factors_product_and_primes_witness :
  1 <= 12 <= 70 /\
  exists fs, factors 12 = Return fs /\ product fs = 12 /\ Forall prime fs /\
             (12 = 1 -> fs = []).
Proof. split; [lia|]. apply (factors_product_and_primes 12). lia. Defined.

(** C4.  Pass 1 keeps exactly 41 of the numbers 1..70 (those with at least
    two distinct prime factors); pass 2, over the prime counts of those 41,
    keeps exactly 28. *)
Theorem number_filter_sizes :
  exists n1 pc n2,
    numbers_pass1 = Return n1 /\ size n1 = 41%nat /\
    prime_counts_of n1 = Return pc /\
    numbers_pass2 n1 pc = Return n2 /\ size n2 = 28%nat.
Proof.
  exists (list_to_set numbers41), (list_to_map prime_counts41),
    (list_to_set universe28).
  split; [apply numbers_pass1_eq|]. split; [apply numbers41_size|].
  split; [apply prime_counts_eq|]. split; [apply numbers_pass2_eq|].
  apply universe28_size.
Qed.

(** C5.  Two successive top-level calls [list(k_disjoint(k, selections))]
    with the same arguments yield the same sets in the same order: the first
    call leaves the list and the shared default [partial_solution] as they
    were, the sets it yielded keep their values during the second call, and
    both calls yield what the value model [k_disjoint] yields. *)
Theorem call_k_disjoint_restartable (default k selections : nat)
    (sels : list selection) (st : store) :
  st !! selections = Some (ListObj sels) ->
  st !! default = Some (SetObj ∅) ->
  exists rs1 st1 rs2 st2,
    call_k_disjoint default k selections st = (Return rs1, st1) /\
    call_k_disjoint default k selections st1 = (Return rs2, st2) /\
    values st2 rs2 = values st1 rs1 /\
    values st2 rs1 = values st1 rs1 /\
    st2 !! selections = Some (ListObj sels) /\
    st2 !! default = Some (SetObj ∅) /\
    exists results,
      k_disjoint k sels = Return results /\ values st1 rs1 = set_values results.
Proof.
  intros Hsel Hdef.
  destruct (k_disjoint_store_search (S (length sels)) k selections sels 0 default ∅ st
              Hsel Hdef ltac:(lia)) as (rs1 & st1 & Hrun1 & Hpre1 & Hval1).
  assert (Hsel1 := prefix_lookup_Some _ _ _ _ Hsel Hpre1).
  assert (Hdef1 := prefix_lookup_Some _ _ _ _ Hdef Hpre1).
  destruct (k_disjoint_store_search (S (length sels)) k selections sels 0 default ∅ st1
              Hsel1 Hdef1 ltac:(lia)) as (rs2 & st2 & Hrun2 & Hpre2 & Hval2).
  exists rs1, st1, rs2, st2.
  split.
  { unfold call_k_disjoint.
    rewrite (py_bind_run _ _ st sels st) by (unfold read_list; by rewrite Hsel).
    exact Hrun1. }
  split.
  { unfold call_k_disjoint.
    rewrite (py_bind_run _ _ st1 sels st1) by (unfold read_list; by rewrite Hsel1).
    exact Hrun2. }
  split; [by rewrite Hval1, Hval2|].
  split; [by rewrite (values_prefix st1 st2 rs1 _ Hpre2 Hval1)|].
  split; [exact (prefix_lookup_Some _ _ _ _ Hsel1 Hpre2)|].
  split; [exact (prefix_lookup_Some _ _ _ _ Hdef1 Hpre2)|].
  exists (search k sels ∅). split; [apply k_disjoint_search|exact Hval1].
Qed.

Lemma call_k_disjoint_restartable_witness :
  let st := [SetObj ∅; ListObj cell17] in
  exists rs1 st1 rs2 st2,
    call_k_disjoint 0 5 1 st = (Return rs1, st1) /\
    call_k_disjoint 0 5 1 st1 = (Return rs2, st2) /\
    values st2 rs2 = values st1 rs1 /\
    values st2 rs1 = values st1 rs1 /\
    st2 !! 1%nat = Some (ListObj cell17) /\
    st2 !! 0%nat = Some (SetObj ∅) /\
    exists results,
      k_disjoint 5 cell17 = Return results /\ values st1 rs1 = set_values results.
Proof.
  apply (call_k_disjoint_restartable 0 5 1 cell17 [SetObj ∅; ListObj cell17]);
    reflexivity.
Defined.

(** C6, as stated, fails on the order of the iteration: the discovery step
    tests the products in the mapping's insertion order, whatever the sizes
    of their groups.  In [small_products] no group yields a packing; the
    group of 2 (one selection) is tested before the group of 302,400 (six
    selections), while the order of the claim puts 302,400 first. *)
Lemma discovery_tests_in_insertion_order :
  (forall n, n ∈ keys small_products ->
             k_disjoint 5 (getitem small_products n) = Return []) /\
  discover small_products = Raise StopIteration /\
  tested small_products = [2; 302400] /\
  spec_scan_order small_products = [302400; 2].
Proof.
  split; [|split; [|split]].
  - intros n Hn.
    change (keys small_products) with [2; 302400] in Hn.
    apply elem_of_cons in Hn as [->|Hn];
      [|apply list_elem_of_singleton in Hn as ->].
    + vm_cast_no_check (eq_refl (@Return (list (gset (list Z))) [])).
    + vm_cast_no_check (eq_refl (@Return (list (gset (list Z))) [])).
  - vm_cast_no_check (eq_refl (@Raise Z StopIteration)).
  - vm_cast_no_check (eq_refl [2; 302400]).
  - vm_cast_no_check (eq_refl [302400; 2]).
Qed.

(** C6, amended.  If no product group yields any packing of five pairwise
    disjoint selections, the discovery step ends with [StopIteration] raised
    to the caller, after testing every product of the mapping once, in the
    mapping's insertion order. *)
Theorem discover_not_found (products : dict (list selection)) :
  (forall n, n ∈ keys products -> k_disjoint 5 (getitem products n) = Return []) ->
  discover products = Raise StopIteration /\ tested products = keys products.
Proof.
  intros Hnone. unfold discover, tested.
  rewrite scan_exhausted; [done|].
  intros n Hn. specialize (Hnone n Hn).
  rewrite k_disjoint_search in Hnone. injection Hnone as ->. reflexivity.
Qed.

Lemma discover_not_found_witness :
  (forall n, n ∈ keys small_products ->
             k_disjoint 5 (getitem small_products n) = Return []) /\
  discover small_products = Raise StopIteration /\
  tested small_products = keys small_products.
Proof.
  assert (Hnone : forall n, n ∈ keys small_products ->
                    k_disjoint 5 (getitem small_products n) = Return []).
  { intros n Hn.
    change (keys small_products) with [2; 302400] in Hn.
    apply elem_of_cons in Hn as [->|Hn];
      [|apply list_elem_of_singleton in Hn as ->]; reflexivity. }
  split; [exact Hnone|]. exact (discover_not_found small_products Hnone).
Defined.

(** C7.  Over the 28 numbers left by pass 2, [products] stores each of the
    C(28,5) = 98,280 combinations of five numbers exactly once: the stored
    selections, taken together, are a rearrangement of the duplicate-free
    list of combinations, every key occurs once, and every selection stored
    under a key [n] consists of five distinct numbers [a, b, c, d, e] of the
    universe with [n = a * b * c * d * e]. *)
Theorem products_store_each_combination_once :
  exists n1 pc universe,
    numbers_pass1 = Return n1 /\ prime_counts_of n1 = Return pc /\
    numbers_pass2 n1 pc = Return universe /\ size universe = 28%nat /\
    let combos := combinations (iter universe) 5 in
    let products := products_of universe in
    Z.of_nat (length combos) = 98280 /\
    NoDup combos /\
    concat (map snd products) ≡ₚ combos /\
    NoDup (keys products) /\
    forall n g s, (n, g) ∈ products -> s ∈ g ->
      (exists a b c d e, s = [a; b; c; d; e] /\ n = a * b * c * d * e) /\
      NoDup s /\
      (forall x, x ∈ s -> x ∈ universe).
Proof.
  exists (list_to_set numbers41), (list_to_map prime_counts41),
    (list_to_set universe28).
  split; [apply numbers_pass1_eq|]. split; [apply prime_counts_eq|].
  split; [apply numbers_pass2_eq|]. split; [apply universe28_size|].
  cbv zeta. rewrite products_of_universe28, iter_universe28.
  split; [vm_cast_no_check (eq_refl 98280)|].
  split; [apply combinations_NoDup, universe28_NoDup|].
  split; [apply entries_multimap|].
  split; [apply keys_multimap_NoDup|].
  intros n g s Hentry Hs.
  apply multimap_entry in Hentry as ->.
  destruct (group_member n s Hs) as (Hsub & Hlen & Hprod).
  split.
  { destruct s as [|a [|b [|c [|d [|e [|? ?]]]]]]; try discriminate Hlen.
    exists a, b, c, d, e. split; [reflexivity|].
    rewrite <- Hprod. unfold product. cbn [fold_left]. lia. }
  split; [exact (sublist_NoDup _ _ universe28_NoDup Hsub)|].
  intros x Hx. apply elem_of_list_to_set. by apply (sublist_subseteq _ _ Hsub).
Qed.

(** C8.  On the canonical input one application of pass 2 is a fixed point:
    counting the primes again over the 28 survivors and filtering them again
    keeps all 28, so a second pass leaves [numbers], and with it everything
    computed from [numbers], unchanged. *)
Theorem pass2_fixed_point :
  exists n1 pc n2 pc2,
    numbers_pass1 = Return n1 /\ prime_counts_of n1 = Return pc /\
    numbers_pass2 n1 pc = Return n2 /\ size n2 = 28%nat /\
    prime_counts_of n2 = Return pc2 /\
    numbers_pass2 n2 pc2 = Return n2.
Proof.
  exists (list_to_set numbers41), (list_to_map prime_counts41),
    (list_to_set universe28), (list_to_map prime_counts28).
  split; [apply numbers_pass1_eq|]. split; [apply prime_counts_eq|].
  split; [apply numbers_pass2_eq|]. split; [apply universe28_size|].
  split; [apply prime_counts28_eq|apply numbers_pass2_again].
Qed.

(** C9.  [k_disjoint] never mutates its arguments: whatever the arguments and
    the store, a call (at any depth, and also a top-level call that uses the
    shared default [partial_solution]) leaves a store that extends the one it
    started from, so the [selections] list, the [partial_solution] set and
    the default set hold the values they held before; the call only creates
    new set objects. *)
Theorem k_disjoint_never_mutates :
  (forall fuel k selections start partial_solution,
      allocates_only (k_disjoint_store fuel k selections start partial_solution)) /\
  (forall default k selections,
      allocates_only (call_k_disjoint default k selections)).
Proof.
  split.
  - apply allocates_only_k_disjoint_store.
  - apply allocates_only_call.
Qed.

(** C10.  [factors(n)] terminates for every positive [n]: for [n >= 2] the
    search for a divisor succeeds, the divisor found is at least 2 and the
    quotient is a positive integer smaller than [n]; the recursion stops at
    [n = 1]; and any fuel of at least [n] lets the call return. *)
Theorem factors_terminates (n : Z) :
  1 <= n ->
  (exists fs, factors n = Return fs) /\
  (2 <= n -> exists p, first_divisor n = Some p /\ 2 <= p /\ 1 <= n / p < n) /\
  (forall fuel, factors_fuel (S fuel) 1 = Return []) /\
  (forall fuel, (Z.to_nat n <= fuel)%nat -> exists fs, factors_fuel fuel n = Return fs).
Proof.
  intros Hn. split; [|split; [|split]].
  - destruct (factors_positive n Hn) as (fs & Hfs & _). eauto.
  - intros Hn2. destruct (first_divisor_exists n Hn2) as [p Hp]. exists p.
    split; [done|].
    destruct (first_divisor_quotient n p Hn2 Hp) as (Hq & _).
    apply first_divisor_Some in Hp as (Hp & _). lia.
  - reflexivity.
  - intros fuel Hfuel.
    destruct (factors_fuel_enough fuel n Hn Hfuel) as (fs & Hfs & _). eauto.
Qed.

Lemma factors_terminates_witness :
  1 <= 12 /\
  (exists fs, factors 12 = Return fs) /\
  (2 <= 12 -> exists p, first_divisor 12 = Some p /\ 2 <= p /\ 1 <= 12 / p < 12) /\
  (forall fuel, factors_fuel (S fuel) 1 = Return []) /\
  (forall fuel, (Z.to_nat 12 <= fuel)%nat ->
                exists fs, factors_fuel fuel 12 = Return fs).
Proof. split; [lia|]. apply (factors_terminates 12). lia. Defined.

(* ================================================================= *)
(** * Further properties of the code *)

(** ** More on [factors] *)

Lemma first_divisor_None (n : Z) : n <= 1 -> first_divisor n = None.
Proof. intros Hn. unfold first_divisor. by rewrite range_nil by lia. Qed.

Lemma first_divisor_least (n p q : Z) :
  first_divisor n = Some p -> 2 <= q -> (q | n) -> 0 < n -> p <= q.
Proof.
  intros (Hp & _ & Hmin)%first_divisor_Some Hq Hdiv Hn.
  destruct (Z_le_gt_dec p q) as [|Hgt]; [done|].
  exfalso. apply (Hmin q); [lia|]. apply Z.mod_divide; [lia|done].
Qed.

Lemma factors_fuel_divisors (fuel : nat) (n : Z) (fs : list Z) :
  1 <= n -> factors_fuel fuel n = Return fs -> Forall (fun q => 2 <= q /\ (q | n)) fs.
Proof.
  revert n fs. induction fuel as [|fuel IH]; intros n fs Hn; [done|]. simpl.
  destruct (n =? 1) eqn:H1; [by intros [= <-]|]. apply Z.eqb_neq in H1.
  destruct (first_divisor n) as [p|] eqn:Hp; [|done].
  destruct (first_divisor_quotient n p ltac:(lia) Hp) as (Hq & Heq).
  destruct (factors_fuel fuel (n / p)) as [gs|[]|] eqn:Hg; try done.
  intros [= <-]. specialize (IH (n / p) gs ltac:(lia) Hg).
  apply first_divisor_Some in Hp as (Hp2 & Hmod & _).
  constructor.
  - split; [lia|]. apply Z.mod_divide; [lia|done].
  - eapply Forall_impl; [exact IH|]. intros q [Hq2 Hqd]. split; [done|].
    rewrite Heq. by apply Z.divide_mul_r.
Qed.

Lemma factors_fuel_sorted (fuel : nat) (n : Z) (fs : list Z) :
  1 <= n -> factors_fuel fuel n = Return fs -> Sorted Z.le fs.
Proof.
  revert n fs. induction fuel as [|fuel IH]; intros n fs Hn; [done|]. simpl.
  destruct (n =? 1) eqn:H1; [intros [= <-]; constructor|]. apply Z.eqb_neq in H1.
  destruct (first_divisor n) as [p|] eqn:Hp; [|done].
  destruct (first_divisor_quotient n p ltac:(lia) Hp) as (Hq & Heq).
  destruct (factors_fuel fuel (n / p)) as [gs|[]|] eqn:Hg; try done.
  intros [= <-]. constructor; [apply (IH (n / p)); [lia|done]|].
  pose proof (factors_fuel_divisors fuel (n / p) gs ltac:(lia) Hg) as Hdiv.
  destruct gs as [|q gs]; constructor.
  apply Forall_cons in Hdiv as [[Hq2 Hqd] _].
  apply (first_divisor_least n p q Hp Hq2); [|lia].
  rewrite Heq. by apply Z.divide_mul_r.
Qed.

Lemma prime_divides_product (p : Z) (l : list Z) :
  prime p -> (p | product l) -> exists q, q ∈ l /\ (p | q).
Proof.
  intros Hp. induction l as [|x l IH].
  - rewrite product_nil. intros Hd. apply Z.divide_1_r in Hd.
    destruct Hp as [Hp1 _]. lia.
  - rewrite product_cons. intros Hd.
    apply Z.divide_prime_mul in Hd as [Hd|Hd]; [| |by apply prime_alt].
    + exists x. split; [left|done].
    + destruct (IH Hd) as (q & Hq & Hpq). exists q. split; [by right|done].
Qed.

Lemma prime_member_of_primes (p : Z) (l : list Z) :
  prime p -> Forall prime l -> (p | product l) -> p ∈ l.
Proof.
  intros Hp Hl Hd. destruct (prime_divides_product p l Hp Hd) as (q & Hq & Hpq).
  rewrite Forall_forall in Hl. specialize (Hl q Hq).
  assert (p = q); [|by subst].
  apply Z.divide_prime_prime; [by apply prime_alt|by apply prime_alt|done].
Qed.

Lemma has_prime_divisor (q : Z) : 2 <= q -> exists r, prime r /\ (r | q) /\ r <= q.
Proof.
  intros Hq. destruct (first_divisor_exists q Hq) as [r Hr].
  exists r. split; [by eapply first_divisor_prime|].
  apply first_divisor_Some in Hr as (Hr & Hmod & _).
  split; [|lia]. apply Z.mod_divide; [lia|done].
Qed.

Lemma factors_of_product (l : list Z) :
  Sorted Z.le l -> Forall prime l -> factors (product l) = Return l.
Proof.
  intros Hs Hl. apply Sorted_StronglySorted in Hs; [|intros ???; lia].
  induction Hs as [|p l Hs IH Hle]; [reflexivity|].
  apply Forall_cons in Hl as [Hp Hl]. specialize (IH Hl).
  assert (Hp2 : 2 <= p) by (destruct Hp; lia).
  assert (Hpos : 1 <= product l).
  { clear -Hl. induction Hl as [|x l Hx _ IHl]; [rewrite product_nil; lia|].
    rewrite product_cons. destruct Hx. nia. }
  rewrite product_cons.
  assert (Hquot : p * product l / p = product l)
    by (rewrite Z.mul_comm; apply Z.div_mul; lia).
  apply (factors_unfold _ p); [|nia|by rewrite Hquot].
  apply first_divisor_Some. split; [nia|]. split.
  - rewrite Z.mul_comm. apply Z.mod_mul. lia.
  - intros q Hq Hmod.
    destruct (has_prime_divisor q ltac:(lia)) as (r & Hr & Hrq & Hrle).
    assert (Hrn : (r | product (p :: l))).
    { rewrite product_cons. apply Z.divide_trans with q; [done|].
      apply Z.mod_divide; [lia|done]. }
    apply (prime_member_of_primes r (p :: l) Hr) in Hrn; [|by constructor].
    apply elem_of_cons in Hrn as [->|Hrn]; [lia|].
    rewrite Forall_forall in Hle. specialize (Hle r Hrn). lia.
Qed.

Lemma factors_nonpositive (n : Z) : n <= 0 -> factors n = Raise StopIteration.
Proof.
  intros Hn. unfold factors. simpl.
  destruct (n =? 1) eqn:H1; [apply Z.eqb_eq in H1; lia|].
  by rewrite first_divisor_None by lia.
Qed.

(** X1.  [factors(n)] raises [StopIteration] for every [n <= 0]: the range
    [range(2, n + 1)] is empty, so [next] finds nothing. *)
Theorem factors_nonpositive_raises (n : Z) : n <= 0 -> factors n = Raise StopIteration.
Proof. apply factors_nonpositive. Qed.

Lemma factors_nonpositive_raises_witness :
  -3 <= 0 /\ factors (-3) = Raise StopIteration.
Proof. split; [lia|]. apply (factors_nonpositive_raises (-3)). lia. Defined.

(** X2.  For every [n >= 1], [factors(n)] returns the prime factorization of
    [n] in canonical form: a non-decreasing list of primes whose product is
    [n], and whose members are exactly the primes that divide [n]. *)
Theorem factors_canonical (n : Z) :
  1 <= n ->
  exists fs, factors n = Return fs /\ product fs = n /\ Forall prime fs /\
             Sorted Z.le fs /\
             (forall p, p ∈ fs <-> prime p /\ (p | n)).
Proof.
  intros Hn. destruct (factors_positive n Hn) as (fs & Hfs & Hprod & Hprime).
  exists fs. split; [done|]. split; [done|]. split; [done|]. split.
  - by apply (factors_fuel_sorted _ n fs Hn Hfs).
  - intros p. split.
    + intros Hp. rewrite Forall_forall in Hprime. split; [by apply Hprime|].
      pose proof (factors_fuel_divisors _ n fs Hn Hfs) as Hd.
      rewrite Forall_forall in Hd. by apply Hd.
    + intros [Hp Hd]. apply prime_member_of_primes; [done|done|by rewrite Hprod].
Qed.

Lemma factors_canonical_witness :
  1 <= 360 /\
  exists fs, factors 360 = Return fs /\ product fs = 360 /\ Forall prime fs /\
             Sorted Z.le fs /\
             (forall p, p ∈ fs <-> prime p /\ (p | 360)).
Proof. split; [lia|]. apply (factors_canonical 360). lia. Defined.

(** X3.  [factors] inverts [product] on canonical factorizations: for every
    non-decreasing list of primes, [factors(product(l))] returns that list.
    So the factorization [factors] returns is the only one. *)
Theorem factors_unique (l : list Z) :
  Sorted Z.le l -> Forall prime l -> factors (product l) = Return l.
Proof. apply factors_of_product. Qed.

Lemma factors_unique_witness :
  Sorted Z.le [2; 2; 3] /\ Forall prime [2; 2; 3] /\
  factors (product [2; 2; 3]) = Return [2; 2; 3].
Proof.
  assert (Hs : Sorted Z.le [2; 2; 3]) by (repeat constructor; lia).
  assert (Hp : Forall prime [2; 2; 3]).
  { assert (H2 : prime 2) by apply prime_alt, Z.prime_2.
    assert (H3 : prime 3) by apply prime_alt, Z.prime_3.
    constructor; [exact H2|]. constructor; [exact H2|].
    constructor; [exact H3|]. constructor. }
  split; [exact Hs|]. split; [exact Hp|]. exact (factors_unique [2; 2; 3] Hs Hp).
Defined.

(** ** More on [combinations] *)

Lemma binomial_0_r (n : nat) : binomial n 0 = 1%nat.
Proof. by destruct n. Qed.

Lemma binomial_above (n k : nat) : (n < k)%nat -> binomial n k = 0%nat.
Proof.
  revert k. induction n as [|n IH]; intros [|k] Hlt; try lia; [done|].
  simpl. rewrite !IH by lia. done.
Qed.

Lemma binomial_diag (n : nat) : binomial n n = 1%nat.
Proof.
  induction n as [|n IH]; [done|]. simpl. rewrite IH, binomial_above by lia. done.
Qed.

Lemma binomial_fact (n k : nat) :
  (k <= n)%nat -> (binomial n k * (fact k * fact (n - k)) = fact n)%nat.
Proof.
  revert k. induction n as [|n IH]; intros k Hk.
  - replace k with 0%nat by lia. done.
  - destruct k as [|k].
    + rewrite binomial_0_r. simpl fact at 1. rewrite Nat.sub_0_r. lia.
    + change (binomial (S n) (S k)) with (binomial n k + binomial n (S k))%nat.
      replace (S n - S k)%nat with (n - k)%nat by lia.
      destruct (decide (k = n)) as [->|Hne].
      * rewrite binomial_diag, binomial_above, Nat.sub_diag by lia. simpl fact. lia.
      * pose proof (IH k ltac:(lia)) as H1.
        pose proof (IH (S k) ltac:(lia)) as H2.
        replace (n - k)%nat with (S (n - S k)) in * by lia.
        change (fact (S n)) with (S n * fact n)%nat.
        change (fact (S k)) with (S k * fact k)%nat in *.
        change (fact (S (n - S k))) with (S (n - S k) * fact (n - S k))%nat in *.
        assert (Hn : S n = (S k + S (n - S k))%nat) by lia.
        rewrite Hn at 1. nia.
Qed.

Lemma combinations_length {A} (l : list A) (r : nat) :
  length (combinations l r) = binomial (length l) r.
Proof.
  revert r. induction l as [|x l IH]; intros [|r]; simpl; try done.
  by rewrite length_app, length_map, !IH.
Qed.

Lemma combinations_sorted (l c : list Z) (r : nat) :
  Sorted Z.lt l -> c ∈ combinations l r -> Sorted Z.lt c.
Proof.
  intros Hl [Hsub _]%combinations_sublist.
  apply Sorted_StronglySorted in Hl; [|intros ???; lia].
  apply StronglySorted_Sorted.
  clear r. induction Hsub as [|x c l Hsub IH|x c l Hsub IH].
  - constructor.
  - apply StronglySorted_inv in Hl as [Hl Hx]. constructor; [by apply IH|].
    rewrite Forall_forall in Hx |- *. intros y Hy. apply Hx.
    by apply (sublist_subseteq _ _ Hsub).
  - apply StronglySorted_inv in Hl as [Hl _]. by apply IH.
Qed.

(** X4.  [combinations(l, r)] yields exactly the subsequences of [l] of
    length [r]; it yields nothing when [r] exceeds the length of [l], and no
    combination twice when [l] has no repeated element. *)
Theorem combinations_contract {A : Type} (l : list A) (r : nat) :
  (forall c, c ∈ combinations l r <-> c `sublist_of` l /\ length c = r) /\
  ((length l < r)%nat -> combinations l r = []) /\
  (NoDup l -> NoDup (combinations l r)).
Proof.
  split; [|split].
  - intros c. split; [apply combinations_sublist|].
    intros [Hsub <-]. by apply sublist_combinations.
  - intros Hlt. apply length_zero_iff_nil.
    by rewrite combinations_length, binomial_above.
  - apply combinations_NoDup.
Qed.

Lemma combinations_contract_witness :
  (length [6; 10; 12] < 4)%nat /\ NoDup [6; 10; 12] /\
  combinations [6; 10; 12] 4 = [] /\ NoDup (combinations [6; 10; 12] 2).
Proof.
  assert (Hnd : NoDup [6; 10; 12]) by (apply (bool_decide_unpack _); exact I).
  assert (Hlt : (length [6; 10; 12] < 4)%nat) by (simpl; lia).
  split; [exact Hlt|]. split; [exact Hnd|]. split.
  - exact (proj1 (proj2 (combinations_contract [6; 10; 12] 4)) Hlt).
  - exact (proj2 (proj2 (combinations_contract [6; 10; 12] 2)) Hnd).
Defined.

(** X5.  The number of combinations is the binomial coefficient: for
    [k <= len(l)], [len(combinations(l, k)) * k! * (len(l) - k)! = len(l)!]. *)
Theorem combinations_count {A : Type} (l : list A) (k : nat) :
  (k <= length l)%nat ->
  (length (combinations l k) * (fact k * fact (length l - k)) = fact (length l))%nat.
Proof. intros Hk. rewrite combinations_length. by apply binomial_fact. Qed.

Lemma combinations_count_witness :
  (2 <= length [6; 10; 12; 14])%nat /\
  (length (combinations [6; 10; 12; 14] 2) * (fact 2 * fact (length [6; 10; 12; 14] - 2))
   = fact (length [6; 10; 12; 14]))%nat.
Proof.
  assert (H : (2 <= length [6; 10; 12; 14])%nat) by (simpl; lia).
  split; [exact H|]. exact (combinations_count [6; 10; 12; 14] 2 H).
Defined.

Lemma universe28_sorted : Sorted Z.lt universe28.
Proof. apply (bool_decide_unpack _). by vm_compute. Qed.

(** X6.  Every combination of a strictly ascending list is strictly
    ascending; in the canonical run, where the 28 numbers left by pass 2 are
    iterated in ascending order, every selection stored in [products] is a
    strictly ascending tuple. *)
Theorem combinations_ascending :
  (forall (l c : list Z) (r : nat),
     Sorted Z.lt l -> c ∈ combinations l r -> Sorted Z.lt c) /\
  (forall n s, s ∈ getitem (products_of (list_to_set universe28)) n ->
     Sorted Z.lt s).
Proof.
  split; [exact combinations_sorted|].
  intros n s. rewrite products_of_universe28, getitem_products.
  intros [Hc _]%list_elem_of_In%filter_In. apply list_elem_of_In in Hc.
  exact (combinations_sorted universe28 s 5 universe28_sorted Hc).
Qed.

(** ** Disjointness and products *)

(** X7.  [is_disjoint(A, B)] is true exactly when no number of [A] occurs in
    [B]; it does not depend on the order of its arguments, and a selection is
    disjoint from itself only when it is empty. *)
Theorem is_disjoint_spec (A B : list Z) :
  (is_disjoint A B = true <-> forall x, x ∈ A -> x ∉ B) /\
  is_disjoint A B = is_disjoint B A /\
  (is_disjoint A A = true <-> A = []).
Proof.
  split; [apply is_disjoint_true|]. split; [apply is_disjoint_sym|].
  split; [apply is_disjoint_self|]. intros ->. reflexivity.
Qed.

(** X8.  [product] multiplies over concatenation and does not depend on the
    order of the numbers. *)
Theorem product_order_independent (l1 l2 : list Z) :
  product (l1 ++ l2) = product l1 * product l2 /\
  (l1 ≡ₚ l2 -> product l1 = product l2).
Proof. split; [apply product_app|apply product_Permutation]. Qed.

Lemma product_order_independent_witness :
  [6; 60] ≡ₚ [60; 6] /\ product [6; 60] = product [60; 6].
Proof.
  assert (H : [6; 60] ≡ₚ [60; 6]) by apply perm_swap.
  split; [exact H|]. exact (proj2 (product_order_independent [6; 60] [60; 6]) H).
Defined.

(** ** [multimap] *)

(** X9.  [multimap(items, key)] groups without loss: its keys are distinct
    and are exactly the keys of the items; the list stored under a key holds
    the items with that key, in their original order, and is never empty;
    all the stored lists together are a rearrangement of [items]; and a key
    is inserted after the existing ones the first time an item has it. *)
Theorem multimap_contract {A : Type} (items : list A) (key : A -> Z) :
  NoDup (keys (multimap items key)) /\
  (forall n, n ∈ keys (multimap items key) <-> exists x, x ∈ items /\ key x = n) /\
  (forall n, getitem (multimap items key) n
             = List.filter (fun x => key x =? n) items) /\
  (forall n g, (n, g) ∈ multimap items key ->
               g ≠ [] /\ g = List.filter (fun x => key x =? n) items) /\
  concat (map snd (multimap items key)) ≡ₚ items /\
  (forall x, keys (multimap (items ++ [x]) key)
             = if decide (key x ∈ keys (multimap items key))
               then keys (multimap items key)
               else keys (multimap items key) ++ [key x]).
Proof.
  split; [apply keys_multimap_NoDup|]. split; [apply elem_of_keys_multimap|].
  split; [apply getitem_multimap|]. split; [|split; [apply entries_multimap|]].
  - intros n g Hentry. split; [|by apply multimap_entry].
    assert (Hk : n ∈ keys (multimap items key)).
    { unfold keys. apply list_elem_of_fmap. by exists (n, g). }
    apply elem_of_keys_multimap in Hk as (x & Hx & Hkx).
    apply multimap_entry in Hentry as ->. intros Hnil.
    assert (Hin : In x (List.filter (fun x => key x =? n) items)).
    { apply filter_In. split; [by apply list_elem_of_In|by apply Z.eqb_eq]. }
    by rewrite Hnil in Hin.
  - intros x. by rewrite multimap_snoc, keys_append_at.
Qed.

(** ** More on [k_disjoint] *)

(** X10.  A call [k_disjoint(k, selections, start, partial_solution)] with
    explicit [start] and [partial_solution] returns (any recursion depth
    above [len(selections) - start] suffices); every set it yields has [k]
    members, contains [partial_solution] and adds to it only selections at
    positions from [start] on, pairwise disjoint if [partial_solution] was;
    and every such pairwise disjoint extension is yielded.  Pairwise disjoint
    ([pairwise_disjoint]) means that no number occurs in two different
    members. *)
Theorem k_disjoint_from (fuel k start : nat) (selections : list (list Z))
    (partial_solution : gset (list Z)) :
  (length selections - start < fuel)%nat ->
  exists results,
    k_disjoint_fuel fuel k selections start partial_solution = Return results /\
    (forall S, S ∈ results ->
       size S = k /\ partial_solution ⊆ S /\
       S ⊆ partial_solution ∪ list_to_set (drop start selections) /\
       (pairwise_disjoint partial_solution -> pairwise_disjoint S)) /\
    (forall S, size S = k -> pairwise_disjoint S -> partial_solution ⊆ S ->
       S ⊆ partial_solution ∪ list_to_set (drop start selections) ->
       S ∈ results).
Proof.
  intros Hfuel. exists (search k (drop start selections) partial_solution).
  split; [by apply k_disjoint_fuel_search|]. split.
  - intros S. apply search_sound.
  - intros S. apply search_complete.
Qed.

Lemma k_disjoint_from_witness :
  (length cell17 - 4 < 3)%nat /\
  exists results,
    k_disjoint_fuel 3 2 cell17 4 {[ [6; 60] ]} = Return results /\
    (forall S, S ∈ results ->
       size S = 2%nat /\ {[ [6; 60] ]} ⊆ S /\
       S ⊆ {[ [6; 60] ]} ∪ list_to_set (drop 4 cell17) /\
       (pairwise_disjoint {[ [6; 60] ]} -> pairwise_disjoint S)) /\
    (forall S, size S = 2%nat -> pairwise_disjoint S -> {[ [6; 60] ]} ⊆ S ->
       S ⊆ {[ [6; 60] ]} ∪ list_to_set (drop 4 cell17) ->
       S ∈ results).
Proof.
  assert (H : (length cell17 - 4 < 3)%nat) by (simpl; lia).
  split; [exact H|]. exact (k_disjoint_from 3 2 4 cell17 {[ [6; 60] ]} H).
Defined.

(** X11.  Edge cases of a top-level call: with [k = 0] the generator yields
    the empty [partial_solution] once, and [any] of that is false because an
    empty set is false; with more selections asked for than there are, and
    in particular on an empty input with [k > 0], it yields nothing. *)
Theorem k_disjoint_edges (k : nat) (selections : list (list Z)) :
  k_disjoint 0 selections = Return [∅] /\
  any [∅] = false /\
  ((length selections < k)%nat -> k_disjoint k selections = Return []) /\
  k_disjoint (S k) [] = Return [].
Proof.
  split; [by rewrite k_disjoint_search|]. split; [done|]. split.
  - intros Hlt. rewrite k_disjoint_search. unfold search. rewrite size_empty.
    destruct k as [|k]; [lia|]. simpl Nat.eqb. cbv iota.
    replace (S k <=? 0 + length selections)%nat with false; [done|].
    symmetry. apply Nat.leb_gt. lia.
  - by rewrite k_disjoint_search.
Qed.

Lemma k_disjoint_edges_witness :
  (length cell17 < 7)%nat /\ k_disjoint 7 cell17 = Return [].
Proof.
  assert (H : (length cell17 < 7)%nat) by (simpl; lia).
  split; [exact H|]. exact (proj1 (proj2 (proj2 (k_disjoint_edges 7 cell17))) H).
Defined.

(** ** More on discovery *)

Lemma any_search_5 (g : list (list Z)) :
  any (search 5 g ∅) = true <-> search 5 g ∅ ≠ [].
Proof.
  rewrite any_true. split.
  - intros (S & HS & _) Hnil. rewrite Hnil in HS. by apply elem_of_nil in HS.
  - intros Hne. destruct (search 5 g ∅) as [|S l] eqn:Hs; [done|].
    exists S. split; [left|].
    assert (HS : S ∈ search 5 g ∅) by (rewrite Hs; left).
    apply search_sound in HS as (-> & _). done.
Qed.

Lemma any_search_5_false (g : list (list Z)) :
  any (search 5 g ∅) = false <-> k_disjoint 5 g = Return [].
Proof.
  rewrite k_disjoint_search. split.
  - intros Hany. destruct (search 5 g ∅) as [|S l] eqn:Hs; [done|].
    assert (Ht : any (search 5 g ∅) = true)
      by (apply any_search_5; by rewrite Hs).
    rewrite Hs in Ht. congruence.
  - intros [= ->]. done.
Qed.

Lemma scan_result (products : list (Z * list (list Z))) (ks : list Z) :
  (exists ks1 n ks2, ks = ks1 ++ n :: ks2 /\
     (forall m, m ∈ ks1 -> any (search 5 (getitem products m) ∅) = false) /\
     any (search 5 (getitem products n) ∅) = true /\
     scan products ks = (ks1 ++ [n], Return n)) \/
  ((forall m, m ∈ ks -> any (search 5 (getitem products m) ∅) = false) /\
   scan products ks = (ks, Raise StopIteration)).
Proof.
  induction ks as [|m ks IH].
  - right. split; [by intros m ?%elem_of_nil|done].
  - destruct (any (search 5 (getitem products m) ∅)) eqn:Hm.
    + left. exists [], m, ks. split; [done|]. split; [by intros ? ?%elem_of_nil|].
      split; [done|]. by apply scan_cons_true.
    + rewrite (scan_cons_false _ _ _ Hm).
      destruct IH as [(ks1 & n & ks2 & -> & Hno & Hyes & Hscan)|[Hno Hscan]].
      * left. exists (m :: ks1), n, ks2. split; [done|]. split.
        { intros m' [->|?]%elem_of_cons; [done|by apply Hno]. }
        split; [done|]. by rewrite Hscan.
      * right. split.
        { intros m' [->|?]%elem_of_cons; [done|by apply Hno]. }
        by rewrite Hscan.
Qed.

(** X12.  The discovery step either returns the first product, in the
    mapping's insertion order, whose group has a packing (every product
    before it was tested and has none, and none after it is tested), or, when
    no group has a packing, raises [StopIteration] after testing every
    product. *)
Theorem discover_first_in_insertion_order (products : list (Z * list (list Z))) :
  (exists ks1 n ks2,
     keys products = ks1 ++ n :: ks2 /\
     (forall m, m ∈ ks1 -> k_disjoint 5 (getitem products m) = Return []) /\
     k_disjoint 5 (getitem products n) ≠ Return [] /\
     discover products = Return n /\ tested products = ks1 ++ [n]) \/
  ((forall m, m ∈ keys products -> k_disjoint 5 (getitem products m) = Return []) /\
   discover products = Raise StopIteration /\ tested products = keys products).
Proof.
  unfold discover, tested.
  destruct (scan_result products (keys products))
    as [(ks1 & n & ks2 & Hks & Hno & Hyes & Hscan)|[Hno Hscan]].
  - left. exists ks1, n, ks2. split; [done|]. split.
    { intros m Hm. by apply any_search_5_false, Hno. }
    split.
    { intros Hnil%any_search_5_false. congruence. }
    by rewrite Hscan.
  - right. split.
    { intros m Hm. by apply any_search_5_false, Hno. }
    by rewrite Hscan.
Qed.

(** X13.  In the canonical run 19,958,400 is the only product whose group
    has a packing of five pairwise disjoint selections, so the product found
    does not depend on the order in which the products are tested. *)
Theorem canonical_product_unique (n : Z) :
  k_disjoint 5 (getitem (products_of (list_to_set universe28)) n) ≠ Return []
  <-> n = 19958400.
Proof.
  rewrite products_of_universe28, getitem_products. split.
  - intros Hne. apply group_packing_unique.
    destruct (any (search 5 (group n) ∅)) eqn:Hany; [done|].
    by apply any_search_5_false in Hany.
  - intros -> Hnil%any_search_5_false.
    pose proof any_group_N21 as H. unfold N21 in H. congruence.
Qed.

(** ** The objects the generator yields *)

Lemma py_bind_inv {A B : Type} (m : py A) (f : A -> py B) st b st' :
  py_bind m f st = (Return b, st') ->
  exists a st1, m st = (Return a, st1) /\ f a st1 = (Return b, st').
Proof.
  unfold py_bind. destruct (m st) as [[a|e|] st1]; try done. eauto.
Qed.

Lemma read_set_inv (r : nat) st s st' :
  read_set r st = (Return s, st') -> st !! r = Some (SetObj s) /\ st' = st.
Proof.
  unfold read_set. destruct (st !! r) as [[s0|l]|]; try done. by intros [= <- <-].
Qed.

Lemma read_list_inv (r : nat) st l st' :
  read_list r st = (Return l, st') -> st !! r = Some (ListObj l) /\ st' = st.
Proof.
  unfold read_list. destruct (st !! r) as [[s0|l0]|]; try done. by intros [= <- <-].
Qed.

Lemma list_getitem_inv (r i : nat) st x st' :
  list_getitem r i st = (Return x, st') -> st' = st.
Proof.
  unfold list_getitem.
  intros (l & st1 & [_ ->]%read_list_inv & Hx)%py_bind_inv.
  destruct (l !! i); [|done]. by injection Hx as _ <-.
Qed.

Lemma for_yield_new {A : Type} (body : A -> py (list nat)) (l : list A) :
  (forall x, allocates_only (body x)) ->
  (forall x st0 ys st1, body x st0 = (Return ys, st1) ->
     NoDup ys /\ forall r, r ∈ ys -> (length st0 <= r < length st1)%nat) ->
  forall st0 rs st1, for_yield body l st0 = (Return rs, st1) ->
    NoDup rs /\ forall r, r ∈ rs -> (length st0 <= r < length st1)%nat.
Proof.
  intros Halloc Hbody. induction l as [|x l IH]; intros st0 rs st1; simpl.
  - intros [= <- <-]. split; [constructor|]. by intros r ?%elem_of_nil.
  - intros (ys & sta & Hx & Hrest)%py_bind_inv.
    apply py_bind_inv in Hrest as (rs' & stb & Hl & [= <- <-]).
    destruct (Hbody _ _ _ _ Hx) as [Hnd1 Hr1].
    destruct (IH _ _ _ Hl) as [Hnd2 Hr2].
    pose proof (prefix_length _ _ (Halloc x st0)) as Hlen1. rewrite Hx in Hlen1.
    pose proof (prefix_length _ _ (allocates_only_for_yield body l Halloc sta)) as Hlen2.
    rewrite Hl in Hlen2. simpl in Hlen1, Hlen2.
    split.
    + apply NoDup_app. split; [done|]. split; [|done].
      intros r Hy Hr. specialize (Hr1 r Hy). specialize (Hr2 r Hr). lia.
    + intros r [Hr|Hr]%elem_of_app.
      * specialize (Hr1 r Hr). lia.
      * specialize (Hr2 r Hr). lia.
Qed.

Lemma k_disjoint_store_yields (fuel k selections : nat) :
  forall (start partial_solution : nat) (P : gset (list Z)) (st : list object)
         (rs : list nat) (st' : list object),
  st !! partial_solution = Some (SetObj P) ->
  k_disjoint_store fuel k selections start partial_solution st = (Return rs, st') ->
  (size P = k -> rs = [partial_solution] /\ st' = st) /\
  (size P ≠ k ->
     NoDup rs /\ forall r, r ∈ rs -> (length st <= r < length st')%nat).
Proof.
  induction fuel as [|fuel IH]; intros start partial P st rs st' Hpart; [done|].
  simpl k_disjoint_store.
  intros (P0 & st1 & [HP0 ->]%read_set_inv & Hrun)%py_bind_inv.
  assert (P0 = P) as -> by congruence.
  destruct (size P =? k)%nat eqn:Hk.
  { apply Nat.eqb_eq in Hk. injection Hrun as <- <-. split; [done|]. by intros ?. }
  apply Nat.eqb_neq in Hk. split; [done|]. intros _.
  apply py_bind_inv in Hrun as (sels & st1 & [_ ->]%read_list_inv & Hrun).
  destruct (k <=? _)%nat; cycle 1.
  { injection Hrun as <- <-. split; [constructor|]. by intros r ?%elem_of_nil. }
  revert Hrun. apply for_yield_new.
  - intros i.
    apply allocates_only_bind; [apply allocates_only_list_getitem|]. intros sel.
    apply allocates_only_bind; [apply allocates_only_read_set|]. intros p'.
    destruct (all_disjoint sel p'); [|apply allocates_only_ret].
    apply allocates_only_bind; [apply allocates_only_set_or_singleton|]. intros r.
    apply allocates_only_k_disjoint_store.
  - intros i st0 ys sta.
    intros (sel & st2 & ->%list_getitem_inv & Hrun)%py_bind_inv.
    apply py_bind_inv in Hrun as (P1 & st2 & [HP1 ->]%read_set_inv & Hrun).
    destruct (all_disjoint sel P1); cycle 1.
    { injection Hrun as <- <-. split; [constructor|]. by intros r ?%elem_of_nil. }
    apply py_bind_inv in Hrun as (p' & st2 & Hnew & Hrun).
    unfold set_or_singleton in Hnew.
    apply py_bind_inv in Hnew as (P2 & st3 & [HP2 ->]%read_set_inv & Hnew).
    injection Hnew as <- <-.
    assert (Hp' : (st0 ++ [SetObj (P2 ∪ {[sel]})]) !! length st0
                  = Some (SetObj (P2 ∪ {[sel]}))).
    { rewrite lookup_app_r by lia. by rewrite Nat.sub_diag. }
    destruct (IH _ _ _ _ _ _ Hp' Hrun) as [Hdone Hmore].
    destruct (decide (size (P2 ∪ {[sel]}) = k)) as [Heq|Hne].
    + destruct (Hdone Heq) as [-> ->]. split; [apply NoDup_singleton|].
      intros r ->%list_elem_of_singleton. rewrite length_app. simpl. lia.
    + destruct (Hmore Hne) as [Hnd Hr]. split; [done|].
      intros r Hin. specialize (Hr r Hin). rewrite length_app in Hr. simpl in Hr. lia.
Qed.

(** X14.  The sets a top-level call yields are objects of their own: for
    [k > 0] every yielded reference points to an object created during the
    call, and no two yielded references are the same object.  For [k = 0]
    the call yields the shared default [partial_solution] object itself and
    creates nothing. *)
Theorem yields_are_new_objects (default k selections : nat) (st : list object)
    (rs : list nat) (st' : list object) :
  st !! default = Some (SetObj ∅) ->
  call_k_disjoint default k selections st = (Return rs, st') ->
  (k = 0%nat -> rs = [default] /\ st' = st) /\
  (k ≠ 0%nat ->
     NoDup rs /\ forall r, r ∈ rs -> (length st <= r < length st')%nat).
Proof.
  intros Hdef. unfold call_k_disjoint.
  intros (sels & st1 & [_ ->]%read_list_inv & Hrun)%py_bind_inv.
  destruct (k_disjoint_store_yields _ _ _ _ _ _ _ _ _ Hdef Hrun) as [H0 H1].
  rewrite size_empty in H0, H1. split; intros Hk; [apply H0|apply H1]; lia.
Qed.

Lemma yields_are_new_objects_witness :
  let st := [SetObj ∅; ListObj cell17] in
  st !! 0%nat = Some (SetObj ∅) /\
  call_k_disjoint 0 5 1 st = (Return [6; 14]%nat, (call_k_disjoint 0 5 1 st).2) /\
  ((5 = 0)%nat -> [6; 14]%nat = [0%nat] /\ (call_k_disjoint 0 5 1 st).2 = st) /\
  ((5 ≠ 0)%nat ->
     NoDup [6; 14]%nat /\
     forall r, r ∈ [6; 14]%nat ->
               (length st <= r < length (call_k_disjoint 0 5 1 st).2)%nat).
Proof.
  assert (Hdef : [SetObj ∅; ListObj cell17] !! 0%nat = Some (SetObj ∅)) by reflexivity.
  assert (Hrun : call_k_disjoint 0 5 1 [SetObj ∅; ListObj cell17]
                 = (Return [6; 14]%nat,
                    (call_k_disjoint 0 5 1 [SetObj ∅; ListObj cell17]).2))
    by reflexivity.
  split; [exact Hdef|]. split; [exact Hrun|].
  exact (yields_are_new_objects 0 5 1 _ _ _ Hdef Hrun).
Defined.

(** ** The comprehensions over [numbers] *)

Lemma filter_raising_Return {A : Type} (test : A -> outcome bool) (b : A -> bool)
    (l : list A) :
  (forall x, x ∈ l -> test x = Return (b x)) ->
  filter_raising test l = Return (List.filter b l).
Proof.
  induction l as [|x l IH]; intros H; [done|]. simpl.
  rewrite (H x) by left. simpl. rewrite IH by (intros y Hy; apply H; by right).
  simpl. by destruct (b x).
Qed.

Lemma flat_map_raising_Return {A B : Type} (f : A -> outcome (list B))
    (g : A -> list B) (l : list A) :
  (forall x, x ∈ l -> f x = Return (g x)) ->
  flat_map_raising f l = Return (flat_map g l).
Proof.
  induction l as [|x l IH]; intros H; [done|]. simpl.
  rewrite (H x) by left. simpl. rewrite IH by (intros y Hy; apply H; by right).
  done.
Qed.

Lemma filter_raising_raises {A : Type} (test : A -> outcome bool) (l : list A) (e : exn) :
  (forall x, x ∈ l -> (exists b, test x = Return b) \/ test x = Raise e) ->
  (exists x, x ∈ l /\ test x = Raise e) ->
  filter_raising test l = Raise e.
Proof.
  induction l as [|x l IH]; intros Hall (y & Hy & Hraise); [by apply elem_of_nil in Hy|].
  simpl. destruct (Hall x ltac:(left)) as [[b Hb]|Hb]; rewrite Hb; simpl; [|done].
  rewrite IH; [done| |].
  - intros z Hz. apply Hall. by right.
  - apply elem_of_cons in Hy as [->|Hy]; [congruence|eauto].
Qed.

Lemma elem_of_List_filter {A : Type} (f : A -> bool) (l : list A) (x : A) :
  x ∈ List.filter f l <-> x ∈ l /\ f x = true.
Proof.
  split.
  - intros [H1 H2]%list_elem_of_In%filter_In. split; [by apply list_elem_of_In|done].
  - intros [H1 H2]. apply list_elem_of_In, filter_In. split; [by apply list_elem_of_In|done].
Qed.

Lemma elem_of_iter (s : gset Z) (n : Z) : n ∈ iter s <-> n ∈ s.
Proof. unfold iter. rewrite merge_sort_Permutation. apply elem_of_elements. Qed.

Lemma iter_NoDup (s : gset Z) : NoDup (iter s).
Proof. unfold iter. rewrite merge_sort_Permutation. apply NoDup_elements. Qed.

Lemma elem_of_prime_factors (n p : Z) :
  1 <= n -> p ∈ prime_factors n <-> prime p /\ (p | n).
Proof.
  intros Hn. unfold prime_factors.
  destruct (factors_positive n Hn) as (fs & Hfs & Hprod & Hprime). rewrite Hfs.
  unfold distinct. rewrite elem_of_list_to_set. split.
  - intros Hp. rewrite Forall_forall in Hprime. split; [by apply Hprime|].
    pose proof (factors_fuel_divisors _ n fs Hn Hfs) as Hd.
    rewrite Forall_forall in Hd. by apply Hd.
  - intros [Hp Hd]. apply prime_member_of_primes; [done|done|by rewrite Hprod].
Qed.

Lemma factors_prime_factors (n : Z) :
  1 <= n -> exists fs, factors n = Return fs /\ distinct fs = prime_factors n.
Proof.
  intros Hn. destruct (factors_positive n Hn) as (fs & Hfs & _).
  exists fs. split; [done|]. unfold prime_factors. by rewrite Hfs.
Qed.

Lemma size_ge_2 (X : gset Z) :
  (2 <= size X)%nat <-> exists x y, x ∈ X /\ y ∈ X /\ x ≠ y.
Proof.
  split.
  - intros Hsize. destruct (size_pos_elem_of X ltac:(lia)) as [x Hx].
    assert (Hrest : (0 < size (X ∖ {[x]}))%nat).
    { rewrite size_difference by set_solver. rewrite size_singleton. lia. }
    destruct (size_pos_elem_of _ Hrest) as [y Hy].
    exists x, y. set_solver.
  - intros (x & y & Hx & Hy & Hne).
    assert (Hsub : {[x; y]} ⊆ X) by set_solver.
    apply subseteq_size in Hsub. rewrite size_union in Hsub by set_solver.
    rewrite !size_singleton in Hsub. lia.
Qed.

(** X15.  Pass 1 keeps exactly the numbers from 1 to 70 that are divisible
    by two different primes. *)
Theorem numbers_pass1_spec :
  exists numbers, numbers_pass1 = Return numbers /\
    forall n, n ∈ numbers <->
      1 <= n <= 70 /\
      exists p q, p ≠ q /\ prime p /\ prime q /\ (p | n) /\ (q | n).
Proof.
  eexists. split.
  - unfold numbers_pass1.
    rewrite (filter_raising_Return _
               (fun n => bool_decide (2 <= size (prime_factors n))%nat)); [done|].
    intros n Hn. apply elem_of_seqZ in Hn.
    destruct (factors_prime_factors n ltac:(lia)) as (fs & Hfs & Hdist).
    rewrite Hfs. cbn [obind]. by rewrite Hdist.
  - intros n. rewrite elem_of_list_to_set, elem_of_List_filter.
    unfold range. rewrite elem_of_seqZ, bool_decide_eq_true, size_ge_2.
    split.
    + intros [Hn (p & q & Hp & Hq & Hne)]. split; [lia|].
      apply elem_of_prime_factors in Hp as [? ?]; [|lia].
      apply elem_of_prime_factors in Hq as [? ?]; [|lia].
      exists p, q. done.
    + intros [Hn (p & q & Hne & Hp & Hq & Hpd & Hqd)]. split; [lia|].
      exists p, q. rewrite !elem_of_prime_factors by lia. done.
Qed.

(** X16.  Pass 2, on any set of positive numbers and any counts, keeps
    exactly the numbers all of whose prime divisors have a count of at least
    5; it never adds a number. *)
Theorem numbers_pass2_spec (numbers : gset Z) (prime_counts : gmap Z nat) :
  (forall n, n ∈ numbers -> 1 <= n) ->
  exists kept, numbers_pass2 numbers prime_counts = Return kept /\
    forall n, n ∈ kept <->
      n ∈ numbers /\
      forall p, prime p -> (p | n) -> (5 <= prime_counts !!! p)%nat.
Proof.
  intros Hpos. eexists. split.
  - unfold numbers_pass2.
    rewrite (filter_raising_Return _
      (fun n => forallb (fun p => bool_decide (5 <= prime_counts !!! p)%nat)
                        (elements (prime_factors n)))); [done|].
    intros n Hn%elem_of_iter.
    destruct (factors_prime_factors n (Hpos n Hn)) as (fs & Hfs & Hdist).
    rewrite Hfs. cbn [obind]. by rewrite Hdist.
  - intros n. rewrite elem_of_list_to_set, elem_of_List_filter.
    rewrite elem_of_iter, forallb_forall. split.
    + intros [Hn Hall]. split; [done|]. intros p Hp Hd.
      assert (Hin : p ∈ prime_factors n)
        by (apply elem_of_prime_factors; [by apply Hpos|done]).
      apply elem_of_elements, list_elem_of_In, Hall in Hin.
      by apply bool_decide_eq_true in Hin.
    + intros [Hn Hall]. split; [done|]. intros p Hp.
      apply list_elem_of_In, elem_of_elements, elem_of_prime_factors in Hp as [Hp Hd];
        [|by apply Hpos].
      apply bool_decide_eq_true. by apply Hall.
Qed.

Lemma numbers_pass2_spec_witness :
  (forall n, n ∈ ({[ 6; 10; 15 ]} : gset Z) -> 1 <= n) /\
  exists kept, numbers_pass2 {[ 6; 10; 15 ]} (list_to_map prime_counts28) = Return kept /\
    forall n, n ∈ kept <->
      n ∈ ({[ 6; 10; 15 ]} : gset Z) /\
      forall p, prime p -> (p | n) ->
                (5 <= (list_to_map prime_counts28 : gmap Z nat) !!! p)%nat.
Proof.
  assert (H : forall n, n ∈ ({[ 6; 10; 15 ]} : gset Z) -> 1 <= n).
  { intros n Hn. apply elem_of_union in Hn as [Hn|Hn];
      [apply elem_of_union in Hn as [Hn|Hn]|]; apply elem_of_singleton in Hn; lia. }
  split; [exact H|]. exact (numbers_pass2_spec _ _ H).
Defined.

(** X17.  Pass 2 raises [StopIteration] when [numbers] holds a number that
    is not positive: [factors] raises on it and the comprehension does not
    catch the exception. *)
Theorem numbers_pass2_raises (numbers : gset Z) (prime_counts : gmap Z nat) (n : Z) :
  n ∈ numbers -> n <= 0 ->
  numbers_pass2 numbers prime_counts = Raise StopIteration.
Proof.
  intros Hn Hle. unfold numbers_pass2.
  rewrite (filter_raising_raises _ _ StopIteration); [done| |].
  - intros m _. destruct (Z_le_gt_dec m 0) as [Hm|Hm].
    + right. by rewrite factors_nonpositive.
    + left. destruct (factors_positive m ltac:(lia)) as (fs & -> & _). simpl. eauto.
  - exists n. split; [by apply elem_of_iter|]. by rewrite factors_nonpositive.
Qed.

Lemma numbers_pass2_raises_witness :
  0 ∈ ({[ 0; 6 ]} : gset Z) /\ 0 <= 0 /\
  numbers_pass2 {[ 0; 6 ]} ∅ = Raise StopIteration.
Proof.
  assert (H : 0 ∈ ({[ 0; 6 ]} : gset Z)) by (apply elem_of_union_l, elem_of_singleton; reflexivity).
  split; [exact H|]. split; [lia|].
  exact (numbers_pass2_raises {[ 0; 6 ]} ∅ 0 H (Z.le_refl 0)).
Defined.

(** [Counter] counts occurrences. *)
Lemma Counter_fold (l : list Z) (c : gmap Z nat) (p : Z) :
  fold_left (fun c p => <[p := S (c !!! p)]> c) l c !!! p
  = (c !!! p + length (List.filter (Z.eqb p) l))%nat.
Proof.
  revert c. induction l as [|x l IH]; intros c; simpl; [lia|].
  rewrite IH. destruct (p =? x) eqn:Hpx.
  - apply Z.eqb_eq in Hpx as ->. rewrite lookup_total_insert_eq. simpl. lia.
  - apply Z.eqb_neq in Hpx. rewrite lookup_total_insert_ne by done. done.
Qed.

Lemma Counter_count (l : list Z) (p : Z) :
  Counter l !!! p = length (List.filter (Z.eqb p) l).
Proof. unfold Counter. rewrite Counter_fold, lookup_total_empty. done. Qed.

Lemma count_in_NoDup (l : list Z) (p : Z) :
  NoDup l -> length (List.filter (Z.eqb p) l) = if decide (p ∈ l) then 1%nat else 0%nat.
Proof.
  induction 1 as [|x l Hx Hnd IH].
  - destruct (decide (p ∈ [])) as [Hin|]; [by apply elem_of_nil in Hin|done].
  - cbn [List.filter]. destruct (p =? x) eqn:Hpx.
    + apply Z.eqb_eq in Hpx as ->. cbn [length]. rewrite IH.
      destruct (decide (x ∈ l)); [done|].
      destruct (decide (x ∈ x :: l)) as [|Hn]; [done|]. exfalso. apply Hn. left.
    + apply Z.eqb_neq in Hpx. rewrite IH.
      destruct (decide (p ∈ l)) as [Hin|Hin];
        destruct (decide (p ∈ x :: l)) as [Hin'|Hin']; try done.
      * exfalso. apply Hin'. by right.
      * apply elem_of_cons in Hin' as [?|?]; done.
Qed.

Lemma count_flat_map (g : Z -> list Z) (l : list Z) (p : Z) :
  (forall n, n ∈ l -> NoDup (g n)) ->
  length (List.filter (Z.eqb p) (flat_map g l))
  = length (List.filter (fun n => bool_decide (p ∈ g n)) l).
Proof.
  induction l as [|n l IH]; intros Hnd; [done|]. simpl.
  rewrite List.filter_app, length_app, IH by (intros m Hm; apply Hnd; by right).
  rewrite count_in_NoDup by (apply Hnd; left).
  destruct (decide (p ∈ g n)) as [Hin|Hin].
  - by rewrite bool_decide_eq_true_2.
  - by rewrite bool_decide_eq_false_2.
Qed.

(** X18.  On any set of positive numbers, [prime_counts[p]] is the number of
    numbers of the set that the prime [p] divides (and 0 when [p] is not
    prime). *)
Theorem prime_counts_spec (numbers : gset Z) :
  (forall n, n ∈ numbers -> 1 <= n) ->
  exists prime_counts, prime_counts_of numbers = Return prime_counts /\
    forall p, exists multiples : gset Z,
      (forall n, n ∈ multiples <-> n ∈ numbers /\ prime p /\ (p | n)) /\
      prime_counts !!! p = size multiples.
Proof.
  intros Hpos. eexists. split.
  - unfold prime_counts_of.
    rewrite (flat_map_raising_Return _ (fun n => elements (prime_factors n))); [done|].
    intros n Hn%elem_of_iter.
    destruct (factors_prime_factors n (Hpos n Hn)) as (fs & Hfs & Hdist).
    rewrite Hfs. cbn [obind]. by rewrite Hdist.
  - intros p.
    exists (list_to_set (List.filter
              (fun n => bool_decide (p ∈ elements (prime_factors n))) (iter numbers))).
    split.
    + intros n. rewrite elem_of_list_to_set, elem_of_List_filter.
      rewrite elem_of_iter, bool_decide_eq_true, elem_of_elements. split.
      * intros [Hn Hp]. split; [done|]. by apply elem_of_prime_factors in Hp; [|apply Hpos].
      * intros [Hn Hp]. split; [done|]. by apply elem_of_prime_factors; [apply Hpos|].
    + rewrite Counter_count, count_flat_map by (intros; apply NoDup_elements).
      rewrite size_list_to_set; [done|].
      apply NoDup_ListNoDup, List.NoDup_filter, NoDup_ListNoDup, iter_NoDup.
Qed.

Lemma prime_counts_spec_witness :
  (forall n, n ∈ ({[ 6; 10; 15 ]} : gset Z) -> 1 <= n) /\
  exists prime_counts, prime_counts_of {[ 6; 10; 15 ]} = Return prime_counts /\
    forall p, exists multiples : gset Z,
      (forall n, n ∈ multiples <-> n ∈ ({[ 6; 10; 15 ]} : gset Z) /\ prime p /\ (p | n)) /\
      prime_counts !!! p = size multiples.
Proof.
  assert (H : forall n, n ∈ ({[ 6; 10; 15 ]} : gset Z) -> 1 <= n).
  { intros n Hn. apply elem_of_union in Hn as [Hn|Hn];
      [apply elem_of_union in Hn as [Hn|Hn]|]; apply elem_of_singleton in Hn; lia. }
  split; [exact H|]. exact (prime_counts_spec _ H).
Defined.

Lemma flat_map_raising_raises {A B : Type} (f : A -> outcome (list B)) (l : list A)
    (e : exn) :
  (forall x, x ∈ l -> (exists ys, f x = Return ys) \/ f x = Raise e) ->
  (exists x, x ∈ l /\ f x = Raise e) ->
  flat_map_raising f l = Raise e.
Proof.
  induction l as [|x l IH]; intros Hall (y & Hy & Hraise); [by apply elem_of_nil in Hy|].
  simpl. destruct (Hall x ltac:(left)) as [[ys Hys]|Hx]; rewrite ?Hys, ?Hx; simpl; [|done].
  rewrite IH; [done| |].
  - intros z Hz. apply Hall. by right.
  - apply elem_of_cons in Hy as [->|Hy]; [congruence|eauto].
Qed.

(** X19.  Cell 5 raises [RuntimeError], not [StopIteration], when [numbers]
    holds a number that is not positive: [factors] raises [StopIteration] in
    the body of the generator expression that [Counter] consumes, and a
    [StopIteration] raised there reaches the consumer as [RuntimeError]. *)
Theorem prime_counts_raises (numbers : gset Z) (n : Z) :
  n ∈ numbers -> n <= 0 -> prime_counts_of numbers = Raise RuntimeError.
Proof.
  intros Hn Hle. unfold prime_counts_of.
  rewrite (flat_map_raising_raises _ _ StopIteration); [done| |].
  - intros m _. destruct (Z_le_gt_dec m 0) as [Hm|Hm].
    + right. by rewrite factors_nonpositive.
    + left. destruct (factors_positive m ltac:(lia)) as (fs & -> & _). simpl. eauto.
  - exists n. split; [by apply elem_of_iter|]. by rewrite factors_nonpositive.
Qed.

Lemma prime_counts_raises_witness :
  0 ∈ ({[ 0; 6 ]} : gset Z) /\ 0 <= 0 /\
  prime_counts_of {[ 0; 6 ]} = Raise RuntimeError.
Proof.
  assert (H : 0 ∈ ({[ 0; 6 ]} : gset Z)) by (apply elem_of_union_l, elem_of_singleton; reflexivity).
  split; [exact H|]. split; [lia|].
  exact (prime_counts_raises {[ 0; 6 ]} 0 H (Z.le_refl 0)).
Defined.
